(** * kxo user-space monitor: wire codec, move-history queue, session loop

    A shallow embedding of
      - kxo_pkg.h      (the status-byte macros),
      - list.h         (the circular doubly-linked list),
      - record_queue.c (q_new, q_insert_head),
      - xo-user.c      (the keyboard handler and the select loop),
    followed by the properties of the session-recording subsystem.

    C integers are [Z]; a [char] holds the value of the byte; pointers are
    addresses in [Z] with [NULL = 0]; the malloc heap is a finite map from
    addresses to blocks; arrays are lists indexed from 0. *)

From Stdlib Require Import ZArith List Bool String Ascii Lia DecimalString.
From stdpp Require Import base tactics option list gmap fin_maps.

Local Open Scope Z_scope.

(** ** kxo_pkg.h *)

Module Pkg.

(** struct package { char val; int move; }; *)
Record package : Type := Package { val : Z; move : Z }.


(** #define PKG_SET_END(pkg) (READ_ONCE(pkg.val) & 0x7F) | 0x80 *)
Definition PKG_SET_END (pkg_val : Z) : Z := Z.lor (Z.land pkg_val 0x7F) 0x80.

(** #define PKG_CLR_END(pkg) (READ_ONCE(pkg.val) & 0x7F) | 0x00 *)
Definition PKG_CLR_END (pkg_val : Z) : Z := Z.lor (Z.land pkg_val 0x7F) 0x00.

(** #define PKG_GET_AI(val) val & 0x7F *)
Definition PKG_GET_AI (v : Z) : Z := Z.land v 0x7F.

(** #define PKG_GET_END(val) (((val) & 0x80) != 0) *)
Definition PKG_GET_END (v : Z) : bool := negb (Z.land v 0x80 =? 0).

End Pkg.

(** ** The C memory the program works on *)

Abbreviation ptr := Z (only parsing).
Definition NULL : ptr := 0.

(** What the program sends to the outside: text on stdout, [perror] on
    stderr, the board buffer handed to [printf("%s", display_buf)], and
    the system calls of the keyboard handler. *)
Inductive event : Type :=
| Printf (s : string)
| Perror (s : string)
| PrintBoard (display_buf : list Z)
| SysOpen (path : string) (fd : Z)
| SysRead (fd : Z) (count : Z)
| SysWrite (fd : Z) (bytes : list Z)
| SysClose (fd : Z).

(** Ways in which an execution leaves defined behaviour: a pointer that
    does not designate a block of the expected kind, a read past the end
    of the array given to memcpy, a store outside [table] or
    [move_record], a traversal that never comes back to the header. *)
Inductive fault : Type :=
| BadPointer
| SourceOutOfBounds
| TableOutOfBounds
| MoveRecordOutOfBounds
| Diverges.

(** How a function finishes: normally, by a fault, or by exit(code). *)
Inductive outcome (A : Type) : Type :=
| Ok (a : A)
| Fault (f : fault)
| Exited (code : Z).
Arguments Ok {A} a.
Arguments Fault {A} f.
Arguments Exited {A} code.

#[global] Instance outcome_ret : MRet outcome := fun A a => Ok a.
#[global] Instance outcome_bind : MBind outcome := fun A B k x =>
  match x with
  | Ok a => k a
  | Fault f => Fault f
  | Exited c => Exited c
  end.

(** ** list.h *)

(** struct list_head { struct list_head *prev; struct list_head *next; }; *)
Record list_head : Type := ListHead { prev : ptr; next : ptr }.

(** record_queue.h:
    typedef struct { int *value; int len; char ai; struct list_head list; }
    element_t;
    (the member [list] is [list_] here, [list] being Rocq's list type) *)
Record element_t : Type :=
  Element { value : ptr; len : Z; ai : Z; list_ : list_head }.

(** A block handed out by malloc: a bare [struct list_head] (the queue
    header), an [element_t], or an array of [int]. A [struct list_head *]
    that points into an [element_t] block points at its [list_] member, so
    [list_entry] keeps the block's address. *)
Inductive block : Type :=
| BHead (lh : list_head)
| BElem (e : element_t)
| BInts (a : list Z).

(** The heap, the answers the allocator will give to the coming malloc
    calls (an exhausted list means out of memory), the number of malloc
    calls made so far, and the output produced so far (oldest first). *)
Record mem : Type :=
  Mem { heap : gmap Z block;
        alloc_ok : list bool;
        mallocs : nat;
        trace : list event }.

Definition set_heap (h : gmap Z block) (m : mem) : mem :=
  Mem h (alloc_ok m) (mallocs m) (trace m).

Definition emit (e : event) (m : mem) : mem :=
  Mem (heap m) (alloc_ok m) (mallocs m) (trace m ++ [e]).

Definition fresh_addr (h : gmap Z block) : ptr :=
  fresh (({[NULL]} : gset Z) ∪ dom h).

(** malloc: the new block has indeterminate contents, given here by
    [init]. *)
Definition malloc (init : block) (m : mem) : ptr * mem :=
  match alloc_ok m with
  | true :: rest =>
      let p := fresh_addr (heap m) in
      (p, Mem (<[p := init]> (heap m)) rest (S (mallocs m)) (trace m))
  | false :: rest => (NULL, Mem (heap m) rest (S (mallocs m)) (trace m))
  | [] => (NULL, Mem (heap m) [] (S (mallocs m)) (trace m))
  end.

(** free(NULL) does nothing. *)
Definition free (p : ptr) (m : mem) : mem :=
  if p =? NULL then m else set_heap (delete p (heap m)) m.

Definition set_value (v : ptr) (e : element_t) : element_t :=
  Element v (len e) (ai e) (list_ e).
Definition set_len (n : Z) (e : element_t) : element_t :=
  Element (value e) n (ai e) (list_ e).
Definition set_ai (c : Z) (e : element_t) : element_t :=
  Element (value e) (len e) c (list_ e).
Definition set_list (lh : list_head) (e : element_t) : element_t :=
  Element (value e) (len e) (ai e) lh.

Definition load_list (m : mem) (p : ptr) : outcome list_head :=
  match heap m !! p with
  | Some (BHead lh) => Ok lh
  | Some (BElem e) => Ok (list_ e)
  | _ => Fault BadPointer
  end.

Definition store_list (m : mem) (p : ptr) (f : list_head -> list_head)
  : outcome mem :=
  match heap m !! p with
  | Some (BHead lh) => Ok (set_heap (<[p := BHead (f lh)]> (heap m)) m)
  | Some (BElem e) =>
      Ok (set_heap (<[p := BElem (set_list (f (list_ e)) e)]> (heap m)) m)
  | _ => Fault BadPointer
  end.

Definition set_prev (v : ptr) (lh : list_head) : list_head :=
  ListHead v (next lh).
Definition set_next (v : ptr) (lh : list_head) : list_head :=
  ListHead (prev lh) v.

Definition load_elem (m : mem) (p : ptr) : outcome element_t :=
  match heap m !! p with
  | Some (BElem e) => Ok e
  | _ => Fault BadPointer
  end.

Definition store_elem (m : mem) (p : ptr) (f : element_t -> element_t)
  : outcome mem :=
  match heap m !! p with
  | Some (BElem e) => Ok (set_heap (<[p := BElem (f e)]> (heap m)) m)
  | _ => Fault BadPointer
  end.

Definition load_ints (m : mem) (p : ptr) : outcome (list Z) :=
  match heap m !! p with
  | Some (BInts a) => Ok a
  | _ => Fault BadPointer
  end.

(** static inline void INIT_LIST_HEAD(struct list_head *head) *)
Definition INIT_LIST_HEAD (head : ptr) (m : mem) : outcome mem :=
  m1 ← store_list m head (set_next head);
  store_list m1 head (set_prev head).

(** static inline void list_add(struct list_head *node,
                                struct list_head *head) *)
Definition list_add (node head : ptr) (m : mem) : outcome mem :=
  hl ← load_list m head;
  let nxt := next hl in
  m1 ← store_list m nxt (set_prev node);
  m2 ← store_list m1 node (set_next nxt);
  m3 ← store_list m2 node (set_prev head);
  store_list m3 head (set_next node).

(** list_for_each_entry_safe(entry, safe, head, list), for a body that
    leaves the list alone: the entries the body is run on, in order.
    [entry] and [safe] are the loop variables at the loop test. *)
Fixpoint for_each_loop (fuel : nat) (m : mem) (head entry safe : ptr)
  : outcome (list ptr) :=
  if entry =? head then Ok []
  else
    match fuel with
    | O => Fault Diverges
    | S fuel' =>
        sl ← load_list m safe;
        rest ← for_each_loop fuel' m head safe (next sl);
        Ok (entry :: rest)
    end.

Definition list_for_each_entry_safe (m : mem) (head : ptr)
  : outcome (list ptr) :=
  hl ← load_list m head;
  let entry := next hl in
  el ← load_list m entry;
  let safe := next el in
  for_each_loop (size (heap m)) m head entry safe.

(** ** record_queue.c *)

Definition nl : string := String (ascii_of_nat 10) EmptyString.
Definition esc : string := String (ascii_of_nat 27) EmptyString.

(** malloc(n * sizeof(int)): a negative [int] n converted to size_t asks
    for more than the address space holds, so the call returns NULL. *)
Definition malloc_ints (n : Z) (m : mem) : ptr * mem :=
  if n <? 0
  then (NULL, Mem (heap m) (tail (alloc_ok m)) (S (mallocs m)) (trace m))
  else malloc (BInts (replicate (Z.to_nat n) 0)) m.

(** memcpy(dst, src, n * sizeof(int)), [src] being the caller's array. *)
Definition memcpy_ints (m : mem) (dst : ptr) (src : list Z) (n : Z)
  : outcome mem :=
  a ← load_ints m dst;
  if (n <? 0) || (Z.of_nat (length src) <? n) then Fault SourceOutOfBounds
  else if Z.of_nat (length a) <? n then Fault BadPointer
  else
    Ok (set_heap
          (<[dst := BInts (take (Z.to_nat n) src ++ drop (Z.to_nat n) a)]>
             (heap m)) m).

(** struct list_head *q_new() *)
Definition q_new (m : mem) : outcome (ptr * mem) :=
  let '(ret, m1) := malloc (BHead (ListHead NULL NULL)) m in
  if ret =? NULL then Ok (ret, m1)
  else m2 ← INIT_LIST_HEAD ret m1; Ok (ret, m2).

(** bool q_insert_head(struct list_head *head, const int *move, int len,
                       char ai) *)
Definition q_insert_head (head : ptr) (move : list Z) (len : Z) (ai : Z)
    (m : mem) : outcome (bool * mem) :=
  if head =? NULL then
    Ok (false, emit (Printf ("Queue head is NULL" ++ nl)) m)
  else
    let '(node, m1) :=
      malloc (BElem (Element NULL 0 0 (ListHead NULL NULL))) m in
    if node =? NULL then
      Ok (false, emit (Printf ("Failed to allocate memory for move" ++ nl)) m1)
    else
      let '(v, m2) := malloc_ints len m1 in
      m3 ← store_elem m2 node (set_value v);
      e ← load_elem m3 node;
      if value e =? NULL then
        Ok (false,
            emit (Printf ("Failed to allocate memory for move" ++ nl))
              (free node m3))
      else
        m4 ← store_elem m3 node (set_len len);
        m5 ← store_elem m4 node (set_ai ai);
        e' ← load_elem m5 node;
        m6 ← memcpy_ints m5 (value e') move len;
        m7 ← list_add node head m6;
        Ok (true, m7).

(** The records of the queue as main's final loop reads them: for each
    entry, [entry->value[0 .. entry->len)] and [entry->ai]. *)
Definition read_record (m : mem) (entry : ptr) : outcome (list Z * Z) :=
  e ← load_elem m entry;
  a ← load_ints m (value e);
  if (len e <? 0) || (Z.of_nat (length a) <? len e) then Fault BadPointer
  else Ok (take (Z.to_nat (len e)) a, ai e).

Fixpoint read_records (m : mem) (entries : list ptr)
  : outcome (list (list Z * Z)) :=
  match entries with
  | [] => Ok []
  | entry :: rest =>
      r ← read_record m entry;
      rs ← read_records m rest;
      Ok (r :: rs)
  end.

Definition q_records (m : mem) (head : ptr) : outcome (list (list Z * Z)) :=
  entries ← list_for_each_entry_safe m head;
  read_records m entries.

(** ** xo-user.c *)

Module XoUser.
Import Pkg.

Definition XO_DEVICE_ATTR_FILE : string := "/sys/class/kxo/kxo/kxo_state".
Definition STDIN_FILENO : Z := 0.

(** The file-scope variables [move_record], [move_count], [head],
    [read_attr], [end_attr], the statics [table] and [pkg_obj] of main,
    and the memory. *)
Record state : Type :=
  State { move_record : list Z;
          move_count : Z;
          head : ptr;
          read_attr : bool;
          end_attr : bool;
          table : list Z;
          pkg_obj : package;
          memory : mem }.

Definition set_move_record (v : list Z) (st : state) : state :=
  State v (move_count st) (head st) (read_attr st) (end_attr st) (table st)
    (pkg_obj st) (memory st).
Definition set_move_count (v : Z) (st : state) : state :=
  State (move_record st) v (head st) (read_attr st) (end_attr st) (table st)
    (pkg_obj st) (memory st).
Definition set_read_attr (v : bool) (st : state) : state :=
  State (move_record st) (move_count st) (head st) v (end_attr st) (table st)
    (pkg_obj st) (memory st).
Definition set_end_attr (v : bool) (st : state) : state :=
  State (move_record st) (move_count st) (head st) (read_attr st) v (table st)
    (pkg_obj st) (memory st).
Definition set_table (v : list Z) (st : state) : state :=
  State (move_record st) (move_count st) (head st) (read_attr st)
    (end_attr st) v (pkg_obj st) (memory st).
Definition set_pkg_obj (v : package) (st : state) : state :=
  State (move_record st) (move_count st) (head st) (read_attr st)
    (end_attr st) (table st) v (memory st).
Definition set_memory (v : mem) (st : state) : state :=
  State (move_record st) (move_count st) (head st) (read_attr st)
    (end_attr st) (table st) (pkg_obj st) v.

Definition out (e : event) (st : state) : state :=
  set_memory (emit e (memory st)) st.

(** What the keyboard handler gets from the system: the descriptor open
    returned, the byte read from stdin ([None] when that read did not
    return 1), and the 20 bytes of [buf] once read(attr_fd, buf, 6) is
    back. *)
Record keyboard : Type :=
  Keyboard { attr_fd : Z; input : option Z; buf : list Z }.

(** What select reports. *)
Record readiness : Type :=
  Readiness { result : Z; stdin_set : bool; device_set : bool }.

(** One wake-up of the loop: select's answer and what the reads that
    follow deliver ([dev = None]: the device read delivered nothing and
    [pkg_obj] keeps its contents). *)
Record tick : Type :=
  Tick { sel : readiness; kb : keyboard; dev : option package }.

Inductive loop_status : Type := LoopExited | WaitingInSelect.

Section game_h.

(** game.h is not among the sources: its constants are parameters. *)
Variables BOARD_SIZE N_GRIDS DRAWBUFFER_SIZE : Z.

(** First inner loop of draw_board:
    for (j = 0; j < (BOARD_SIZE << 1) - 1 && k < N_GRIDS; j++)
        draw_buffer[i++] = j & 1 ? '|' : table[k++];
    [buf] is draw_buffer[0 .. i). *)
Fixpoint draw_cells (n : nat) (table : list Z) (j k : Z) (buf : list Z)
  : list Z * Z :=
  match n with
  | O => (buf, k)
  | S n' =>
      if (j <? Z.shiftl BOARD_SIZE 1 - 1) && (k <? N_GRIDS) then
        if negb (Z.land j 1 =? 0)
        then draw_cells n' table (j + 1) k (buf ++ [124])
        else draw_cells n' table (j + 1) (k + 1)
               (buf ++ [nth (Z.to_nat k) table 0])
      else (buf, k)
  end.

(** while (i < DRAWBUFFER_SIZE) { ... } of draw_board. *)
Fixpoint draw_rows (fuel : nat) (table : list Z) (k : Z) (buf : list Z)
  : list Z :=
  match fuel with
  | O => buf
  | S fuel' =>
      if Z.of_nat (length buf) <? DRAWBUFFER_SIZE then
        let '(buf1, k1) :=
          draw_cells (Z.to_nat (Z.shiftl BOARD_SIZE 1 - 1)) table 0 k buf in
        let buf2 := buf1 ++ [10] in
        let buf3 :=
          buf2 ++ replicate (Z.to_nat (Z.shiftl BOARD_SIZE 1 - 1)) 45 in
        draw_rows fuel' table k1 (buf3 ++ [10])
      else buf
  end.

(** static int draw_board(char *table, char *draw_buffer): the characters
    stored into draw_buffer, from index 0 on. Every turn of the while loop
    stores at least two, so DRAWBUFFER_SIZE turns are enough. *)
Definition draw_board (table : list Z) : list Z :=
  draw_rows (Z.to_nat DRAWBUFFER_SIZE) table 0 [10; 10].

(** static void listen_keyboard_handler(void) *)
Definition listen_keyboard_handler (k : keyboard) (st : state) : state :=
  let fd := attr_fd k in
  let st0 := out (SysOpen XO_DEVICE_ATTR_FILE fd) st in
  let st1 := out (SysRead STDIN_FILENO 1) st0 in
  let st2 :=
    match input k with
    | Some c =>
        if c =? 16 then
          let s1 := out (SysRead fd 6) st1 in
          let buf1 :=
            <[0%nat := if negb (nth 0 (buf k) 0 - 48 =? 0) then 48 else 49]>
              (buf k) in
          let s2 := set_read_attr (xorb (read_attr s1) true) s1 in
          let s3 := out (SysWrite fd (take 6 buf1)) s2 in
          if negb (read_attr s3)
          then out (Printf ("Stopping to display the chess board..." ++ nl)) s3
          else s3
        else if c =? 17 then
          let s1 := out (SysRead fd 6) st1 in
          let buf1 := <[4%nat := 49]> (buf k) in
          let s2 := set_read_attr false s1 in
          let s3 := set_end_attr true s2 in
          let s4 := out (SysWrite fd (take 6 buf1)) s3 in
          out (Printf ("Stopping the kernel space tic-tac-toe game..." ++ nl))
            s4
        else st1
    | None => st1
    end in
  out (SysClose fd) st2.

(** static inline void record_move(int move):
    move_record[move_count++] = move; with move_record of N_GRIDS ints. *)
Definition record_move (move : Z) (st : state) : outcome state :=
  if (0 <=? move_count st) && (move_count st <? N_GRIDS) then
    Ok (set_move_count (move_count st + 1)
          (set_move_record
             (<[Z.to_nat (move_count st) := move]> (move_record st)) st))
  else Fault MoveRecordOutOfBounds.

(** void record_to_queue(char winner) *)
Definition record_to_queue (winner : Z) (st : state) : outcome state :=
  if move_count st =? 0 then Ok st
  else
    r ← q_insert_head (head st) (move_record st) (move_count st) winner
          (memory st);
    let '(inserted, m') := r in
    if negb inserted then
      Ok (out (Perror "Failed to insert move into queue") (set_memory m' st))
    else Ok (set_move_count 0 (set_memory m' st)).

(** The device branch of the loop of main (from FD_CLR(device_fd) on). *)
Definition device_ready (rd : option package) (st : state) : outcome state :=
  let st1 := match rd with Some p => set_pkg_obj p st | None => st end in
  let pkg := pkg_obj st1 in
  if (move pkg =? -1) && negb (PKG_GET_END (val pkg)) then Ok st1
  else
    st2 ← (if negb (move pkg =? -1) then
              if (0 <=? move pkg) && (move pkg <? N_GRIDS) then
                record_move (move pkg)
                  (set_table
                     (<[Z.to_nat (move pkg) := PKG_GET_AI (val pkg)]>
                        (table st1)) st1)
              else Fault TableOutOfBounds
            else Ok st1);
    let st3 :=
      if read_attr st2 then
        out (PrintBoard (draw_board (table st2)))
          (out (Printf (esc ++ "[H" ++ esc ++ "[J")) st2)
      else st2 in
    if PKG_GET_END (val pkg) then
      st4 ← record_to_queue (PKG_GET_AI (val pkg)) st3;
      Ok (set_table (replicate (Z.to_nat N_GRIDS) 32) st4)
    else Ok st3.

(** One turn of while (!end_attr) { ... }, from select on. *)
Definition loop_body (t : tick) (st : state) : outcome state :=
  if result (sel t) <? 0 then Exited 1
  else if stdin_set (sel t) then Ok (listen_keyboard_handler (kb t) st)
  else if device_set (sel t) then device_ready (dev t) st
  else Ok st.

(** while (!end_attr) { ... } run on the wake-ups [ticks]; when they are
    used up and end_attr is still false the program sits in select. *)
Fixpoint main_loop (ticks : list tick) (st : state)
  : outcome (loop_status * state) :=
  if end_attr st then Ok (LoopExited, st)
  else
    match ticks with
    | [] => Ok (WaitingInSelect, st)
    | t :: rest => st' ← loop_body t st; main_loop rest st'
    end.

(** main from head = q_new() up to the loop; the statics start zeroed. *)
Definition main_init (m : mem) : outcome state :=
  r ← q_new m;
  let '(hd, m') := r in
  if hd =? NULL then Exited 1
  else
    Ok (State (replicate (Z.to_nat N_GRIDS) 0) 0 hd true false
          (replicate (Z.to_nat N_GRIDS) 0) (Package 0 0) m').

End game_h.

End XoUser.

(** ** The queue as a circular doubly-linked list in the heap *)

(** A linked entry: its address, the moves it holds and its winner. *)
Abbreviation cell := (Z * (list Z * Z))%type (only parsing).

(** [dseg h before first cells last after]: starting at address [first],
    whose predecessor is [before], the [next] pointers run through
    [cells] and reach [after]; [last] is the address of the final entry
    (or [before] when there is none). Each entry owns an array holding
    exactly its moves. *)
Fixpoint dseg (h : gmap Z block) (before first : ptr) (cells : list cell)
    (last after : ptr) : Prop :=
  match cells with
  | [] => first = after ∧ before = last
  | (a, (mv, w)) :: rest =>
      first = a ∧
      ∃ e, h !! a = Some (BElem e) ∧
           prev (list_ e) = before ∧
           ai e = w ∧
           len e = Z.of_nat (length mv) ∧
           h !! value e = Some (BInts mv) ∧
           dseg h a (next (list_ e)) rest last after
  end.

(** [head] is the header of a well-formed queue whose entries, front to
    back, are [cells]. *)
Definition is_queue (m : mem) (head : ptr) (cells : list cell) : Prop :=
  ∃ lh, heap m !! head = Some (BHead lh) ∧
        dseg (heap m) head (next lh) cells (prev lh) head ∧
        NoDup (cells.*1) ∧
        heap m !! NULL = None.

(** The answers of the allocator to the next malloc and to the one after. *)
Definition next_malloc_ok (m : mem) : bool :=
  match alloc_ok m with true :: _ => true | _ => false end.

Definition second_malloc_ok (m : mem) : bool :=
  match alloc_ok m with _ :: true :: _ => true | _ => false end.

(** ** Notions used to state the properties *)

(** The line q_insert_head prints when an allocation fails. *)
Definition alloc_msg : event :=
  Printf ("Failed to allocate memory for move" ++ nl).

(** Executions that end normally or leave defined behaviour through a
    pointer or a source array, and in no other way. *)
Definition heap_faults_only {A : Type} (x : outcome A) : Prop :=
  match x with
  | Ok _ => True
  | Fault f => f = BadPointer ∨ f = SourceOutOfBounds
  | Exited _ => False
  end.

(** The record the device branch decodes: the one the read delivered, or
    what [pkg_obj] still holds when the read delivered nothing. *)
Definition received (rd : option Pkg.package) (st : XoUser.state)
  : Pkg.package :=
  match rd with Some p => p | None => XoUser.pkg_obj st end.


(** A wake-up on which only the device is readable and its read delivers
    the record [p]. *)
Definition device_tick (p : Pkg.package) : XoUser.tick :=
  XoUser.Tick (XoUser.Readiness 1 false true)
    (XoUser.Keyboard (-1) None []) (Some p).

(** A queue header at address 1 with no entries, as q_new builds it in an
    empty heap; [o] is what the allocator will answer from then on. *)
Definition empty_queue (o : list bool) : mem :=
  Mem {[1 := BHead (ListHead 1 1)]} o 1 [].

(** A session in which 'X' has played cell 0 and 'O' cell 4. *)
Definition two_moves_state : XoUser.state :=
  XoUser.State [0; 4; 0; 0; 0; 0; 0; 0; 0; 0; 0; 0; 0; 0; 0; 0] 2 1 true false
    [88; 0; 0; 0; 79; 0; 0; 0; 0; 0; 0; 0; 0; 0; 0; 0]
    (Pkg.Package 79 4) (empty_queue [true; true]).

(** Ctrl-Q typed while the attribute file, open as descriptor 3, reads
    "1 0 0\n"; the other 14 bytes of buf are whatever the stack held. *)
Definition ctrl_q_key : XoUser.keyboard :=
  XoUser.Keyboard 3 (Some 17)
    [49; 32; 48; 32; 48; 10; 0; 0; 0; 0; 0; 0; 0; 0; 0; 0; 0; 0; 0; 0].


(** * The rest of the code *)

(** ** list.h: list_del *)

(** static inline void list_del(struct list_head *node), built without
    LIST_POISONING: the node keeps its two pointers. *)
Definition list_del (node : ptr) (m : mem) : outcome mem :=
  nl_ ← load_list m node;
  let nxt := next nl_ in
  let prv := prev nl_ in
  m1 ← store_list m nxt (set_prev prv);
  store_list m1 prv (set_next nxt).

(** ** record_queue.c: q_free *)

(** The loop of q_free:
    list_for_each_entry_safe(entry, safe, head, list) {
        list_del(&entry->list);
        if (entry->value) free(entry->value);
        free(entry);
    }
    [entry] and [safe] are the loop variables at the loop test. *)
Fixpoint q_free_loop (fuel : nat) (m : mem) (head entry safe : ptr)
  : outcome mem :=
  if entry =? head then Ok m
  else
    match fuel with
    | O => Fault Diverges
    | S fuel' =>
        m1 ← list_del entry m;
        e ← load_elem m1 entry;
        let m2 := if value e =? NULL then m1 else free (value e) m1 in
        let m3 := free entry m2 in
        sl ← load_list m3 safe;
        q_free_loop fuel' m3 head safe (next sl)
    end.

(** void q_free(struct list_head *head) *)
Definition q_free (head : ptr) (m : mem) : outcome mem :=
  if head =? NULL then Ok m
  else
    hl ← load_list m head;
    let entry := next hl in
    el ← load_list m entry;
    let safe := next el in
    m' ← q_free_loop (size (heap m)) m head entry safe;
    Ok (free head m').

(** ** Ownership of the move arrays *)

(** The [value] pointer held by the block at an address (NULL when the
    block is not an entry). *)
Definition block_value (b : option block) : ptr :=
  match b with
  | Some (BElem e) => value e
  | _ => NULL
  end.

(** The move arrays of the entries, front to back. *)
Definition cell_values (h : gmap Z block) (cells : list cell) : list ptr :=
  (fun a => block_value (h !! a)) <$> cells.*1.

(** The blocks a queue is made of: header, entries, move arrays. *)
Definition queue_blocks (h : gmap Z block) (head : ptr) (cells : list cell)
  : list ptr :=
  head :: cells.*1 ++ cell_values h cells.

(** [head] is a well-formed queue whose entries own distinct move arrays,
    and the heap is [h0] plus the blocks of the queue: what q_new and
    q_insert_head build on top of a heap [h0]. *)
Definition queue_over (h0 : gmap Z block) (m : mem) (head : ptr)
    (cells : list cell) : Prop :=
  is_queue m head cells ∧
  NoDup (cell_values (heap m) cells) ∧
  (∀ p, p ∈ queue_blocks (heap m) head cells -> h0 !! p = None) ∧
  (∀ p, p ∉ queue_blocks (heap m) head cells -> heap m !! p = h0 !! p).


(** ** The session invariant *)

(** What holds of the session between two turns of the loop: the queue is
    well formed on top of the heap [h0] the program started with, the two
    arrays have their N_GRIDS elements, and move_count is within the
    array. *)
Definition session_ok (N_GRIDS : Z) (h0 : gmap Z block) (st : XoUser.state)
    (cells : list cell) : Prop :=
  queue_over h0 (XoUser.memory st) (XoUser.head st) cells ∧
  length (XoUser.table st) = Z.to_nat N_GRIDS ∧
  length (XoUser.move_record st) = Z.to_nat N_GRIDS ∧
  0 <= XoUser.move_count st <= N_GRIDS.

(** Whether a byte was read from the keyboard and is [c]. *)
Definition is_key (c : Z) (input : option Z) : bool :=
  match input with Some x => x =? c | None => false end.

(** The characters draw_board can store: newline, bar, dash, or a cell
    of the board. *)
Definition board_char (table : list Z) (c : Z) : Prop :=
  c = 10 ∨ c = 124 ∨ c = 45 ∨ c ∈ table.

(** ** A reference description of the drawing *)

(** [c] cells of the board from index [k] on, separated by bars. *)
Fixpoint cells_line (table : list Z) (k : Z) (c : nat) : list Z :=
  match c with
  | O => []
  | S O => [nth (Z.to_nat k) table 0]
  | S c' => nth (Z.to_nat k) table 0 :: 124 :: cells_line table (k + 1) c'
  end.

(** [r] rows of [b] cells from index [k] on, each followed by a newline,
    a line of 2b-1 dashes and a newline. *)
Fixpoint grid_rows (b : Z) (table : list Z) (k : Z) (r : nat) : list Z :=
  match r with
  | O => []
  | S r' =>
      cells_line table k (Z.to_nat b) ++ [10] ++
      replicate (Z.to_nat (2 * b - 1)) 45 ++ [10] ++
      grid_rows b table (k + b) r'
  end.

(** ** xo-user.c: the report printed after the loop *)

Section report.

(** GET_COL and GET_ROW are macros of game.h, which is not among the
    sources: they are parameters. *)
Variables GET_COL GET_ROW : Z -> Z.

(** What printf prints for %c (the argument converted to unsigned char)
    and for %d. *)
Definition char_of (c : Z) : ascii := ascii_of_nat (Z.to_nat (c mod 256)).
Definition decimal (n : Z) : string := NilZero.string_of_int (Z.to_int n).

(** printf("%c%d", 'A' + GET_COL(x), 1 + GET_ROW(x)) *)
Definition move_text (x : Z) : event :=
  Printf (String (char_of (65 + GET_COL x)) (decimal (1 + GET_ROW x))).

(** The for loop of print_moves, from index [i] on, [n] turns at most. *)
Fixpoint print_moves_from (n : nat) (record : list Z) (count i : Z)
    (m : mem) : outcome mem :=
  match n with
  | O => Ok m
  | S n' =>
      if i <? count then
        match record !! Z.to_nat i with
        | Some x =>
            let m1 := emit (move_text x) m in
            let m2 := if i <? count - 1 then emit (Printf " -> ") m1 else m1 in
            print_moves_from n' record count (i + 1) m2
        | None => Fault BadPointer
        end
      else Ok m
  end.

(** static void print_moves(const int *record, int count) *)
Definition print_moves (record : list Z) (count : Z) (m : mem)
  : outcome mem :=
  m' ← print_moves_from (Z.to_nat count) record count 0
         (emit (Printf "Moves: ") m);
  Ok (emit (Printf nl) m').

(** printf("\"%c\" Win!\n", entry->ai) *)
Definition win_text (ai : Z) : event :=
  Printf (String (ascii_of_nat 34)
            (String (char_of ai)
               (String (ascii_of_nat 34) (" Win!" ++ nl)))).

(** The body of the last loop of main, run on the entries in turn. *)
Fixpoint report_entries (m : mem) (entries : list ptr) : outcome mem :=
  match entries with
  | [] => Ok m
  | entry :: rest =>
      e ← load_elem m entry;
      a ← load_ints m (value e);
      m1 ← print_moves a (len e) m;
      report_entries (emit (win_text (ai e)) m1) rest
  end.

(** main, after the loop:
    list_for_each_entry_safe(entry, safe, head, list) {
        print_moves(entry->value, entry->len);
        printf("\"%c\" Win!\n", entry->ai);
    } *)
Definition main_report (m : mem) (head : ptr) : outcome mem :=
  entries ← list_for_each_entry_safe m head;
  report_entries m entries.

(** What the report of one game should be: the moves joined by arrows
    between "Moves: " and a newline, then the winner. *)
Fixpoint moves_joined (mv : list Z) : list event :=
  match mv with
  | [] => []
  | [x] => [move_text x]
  | x :: rest => move_text x :: Printf " -> " :: moves_joined rest
  end.

Definition game_lines (r : list Z * Z) : list event :=
  [Printf "Moves: "] ++ moves_joined r.1 ++ [Printf nl; win_text r.2].

End report.

(** ** Concrete states used as examples *)

(** A queue holding one game, moves 0 and 4 won by 'X': header at 1,
    entry at 2, move array at 3. *)
Definition one_game_queue (o : list bool) : mem :=
  Mem (<[3 := BInts [0; 4]]>
         (<[2 := BElem (Element 3 2 88 (ListHead 1 1))]>
            {[1 := BHead (ListHead 2 2)]})) o 3 [].

(** The header at 1 with no entry, and beside it a node at 2 that is
    allocated and filled in but not linked, with its move array at 3. *)
Definition unlinked_node_queue : mem :=
  Mem (<[3 := BInts [0; 4]]>
         (<[2 := BElem (Element 3 2 88 (ListHead NULL NULL))]>
            {[1 := BHead (ListHead 1 1)]})) [] 3 [].

(** A keyboard wake-up and a device wake-up. *)
Definition key_tick (k : XoUser.keyboard) : XoUser.tick :=
  XoUser.Tick (XoUser.Readiness 1 true false) k None.

(** Ctrl-P, and the letter 'a', typed while the attribute file reads
    "1 0 0" and a newline. *)
Definition ctrl_p_key : XoUser.keyboard :=
  XoUser.Keyboard 3 (Some 16)
    [49; 32; 48; 32; 48; 10; 0; 0; 0; 0; 0; 0; 0; 0; 0; 0; 0; 0; 0; 0].

Definition letter_key : XoUser.keyboard :=
  XoUser.Keyboard 3 (Some 97)
    [49; 32; 48; 32; 48; 10; 0; 0; 0; 0; 0; 0; 0; 0; 0; 0; 0; 0; 0; 0].

(** A board of 16 cells with 'X' at 0 and 'O' at 4, the rest blank. *)
Definition sample_board : list Z :=
  [88; 32; 32; 32; 79; 32; 32; 32; 32; 32; 32; 32; 32; 32; 32; 32].

(** * Properties *)

(** ** Status byte *)


Lemma land_0x80_cases v : Z.land v 0x80 = 0 \/ Z.land v 0x80 = 0x80.
Proof.
  destruct (Z.testbit v 7) eqn:Hb; [right | left]; apply Z.bits_inj';
    intros n Hn; rewrite Z.land_spec;
    destruct (Z.eq_dec n 7) as [-> | Hne].
  - rewrite Hb. reflexivity.
  - replace (Z.testbit 0x80 n) with false; [apply andb_false_r |].
    symmetry. change 0x80 with (2 ^ 7). apply Z.pow2_bits_false. lia.
  - rewrite Hb. reflexivity.
  - rewrite Z.bits_0.
    replace (Z.testbit 0x80 n) with false; [apply andb_false_r |].
    symmetry. change 0x80 with (2 ^ 7). apply Z.pow2_bits_false. lia.
Qed.



(** ** Memory *)

(** Resolve the lookups in a heap built by successive stores. *)
Ltac heap_lookups :=
  repeat (first [ rewrite lookup_insert_eq
                | rewrite lookup_insert_ne by congruence ];
          simpl).

Lemma fresh_addr_None (h : gmap Z block) : h !! fresh_addr h = None.
Proof.
  unfold fresh_addr.
  pose proof (is_fresh (({[NULL]} : gset Z) ∪ dom h)) as Hf.
  apply not_elem_of_dom. set_solver.
Qed.

Lemma fresh_addr_not_NULL (h : gmap Z block) : fresh_addr h ≠ NULL.
Proof.
  unfold fresh_addr.
  pose proof (is_fresh (({[NULL]} : gset Z) ∪ dom h)) as Hf.
  set_solver.
Qed.

Lemma eqb_NULL_false (p : ptr) : p ≠ NULL -> (p =? NULL) = false.
Proof. intros Hp. apply Z.eqb_neq. exact Hp. Qed.

Lemma load_list_head m p lh :
  heap m !! p = Some (BHead lh) -> load_list m p = Ok lh.
Proof. intros H. unfold load_list. rewrite H. reflexivity. Qed.

Lemma load_list_elem m p e :
  heap m !! p = Some (BElem e) -> load_list m p = Ok (list_ e).
Proof. intros H. unfold load_list. rewrite H. reflexivity. Qed.

Lemma store_list_head m p lh f :
  heap m !! p = Some (BHead lh) ->
  store_list m p f = Ok (set_heap (<[p := BHead (f lh)]> (heap m)) m).
Proof. intros H. unfold store_list. rewrite H. reflexivity. Qed.

Lemma store_list_elem m p e f :
  heap m !! p = Some (BElem e) ->
  store_list m p f =
  Ok (set_heap (<[p := BElem (set_list (f (list_ e)) e)]> (heap m)) m).
Proof. intros H. unfold store_list. rewrite H. reflexivity. Qed.

Lemma store_elem_elem m p e f :
  heap m !! p = Some (BElem e) ->
  store_elem m p f = Ok (set_heap (<[p := BElem (f e)]> (heap m)) m).
Proof. intros H. unfold store_elem. rewrite H. reflexivity. Qed.

Lemma load_elem_elem m p e :
  heap m !! p = Some (BElem e) -> load_elem m p = Ok e.
Proof. intros H. unfold load_elem. rewrite H. reflexivity. Qed.

(** ** Segments *)

Lemma dseg_frame h h' before first cells last after :
  (∀ a, a ∈ cells.*1 -> h' !! a = h !! a) ->
  (∀ p a, h !! p = Some (BInts a) -> h' !! p = Some (BInts a)) ->
  dseg h before first cells last after ->
  dseg h' before first cells last after.
Proof.
  intros Hcells Hints. revert before first Hcells.
  induction cells as [| [a [mv w]] rest IH]; intros before first Hcells;
    simpl; [tauto |].
  intros [-> (e & He & Hp & Hw & Hl & Hv & Hrest)].
  split; [reflexivity |]. exists e.
  rewrite Hcells by (simpl; left).
  repeat split; try assumption.
  - apply Hints. exact Hv.
  - apply IH; [| exact Hrest].
    intros b Hb. apply Hcells. simpl. right. exact Hb.
Qed.

Lemma dseg_allocated h before first cells last after a :
  dseg h before first cells last after ->
  a ∈ cells.*1 -> ∃ e, h !! a = Some (BElem e).
Proof.
  revert before first.
  induction cells as [| [b [mv w]] rest IH]; intros before first; simpl.
  - intros _ Ha. inversion Ha.
  - intros [-> (e & He & _ & _ & _ & _ & Hrest)] Ha.
    apply elem_of_cons in Ha as [-> | Ha]; [eauto |].
    eapply IH; eassumption.
Qed.

Lemma is_queue_head_not_NULL m head cells :
  is_queue m head cells -> head ≠ NULL.
Proof.
  intros (lh & Hh & _ & _ & Hn) ->. rewrite Hn in Hh. discriminate.
Qed.

Lemma is_queue_head_not_cell m head cells :
  is_queue m head cells -> head ∉ cells.*1.
Proof.
  intros (lh & Hh & Hseg & _ & _) Hin.
  destruct (dseg_allocated _ _ _ _ _ _ _ Hseg Hin) as [e He].
  rewrite Hh in He. discriminate.
Qed.

(** ** Traversal *)

Lemma cells_bounded_by_heap (h : gmap Z block) (l : list ptr) :
  NoDup l -> (∀ a, a ∈ l -> is_Some (h !! a)) -> (length l ≤ size h)%nat.
Proof.
  intros Hnd Hall.
  rewrite <- (size_dom (D := gset Z)).
  unfold size, set_size.
  apply submseteq_length, NoDup_submseteq; [exact Hnd |].
  intros a Ha. apply elem_of_elements, elem_of_dom, Hall, Ha.
Qed.

Lemma dseg_first_loadable m before first cells last head lh :
  load_list m head = Ok lh ->
  dseg (heap m) before first cells last head ->
  ∃ l, load_list m first = Ok l.
Proof.
  intros Hh. destruct cells as [| [a [mv w]] rest]; simpl.
  - intros [-> _]. eauto.
  - intros [-> (e & He & _)]. exists (list_ e). apply load_list_elem, He.
Qed.

Lemma for_each_loop_dseg m head lh last :
  load_list m head = Ok lh ->
  ∀ cells fuel before first l,
    dseg (heap m) before first cells last head ->
    head ∉ cells.*1 ->
    (length cells ≤ fuel)%nat ->
    load_list m first = Ok l ->
    for_each_loop fuel m head first (next l) = Ok (cells.*1).
Proof.
  intros Hh. induction cells as [| [a [mv w]] rest IH];
    intros fuel before first l Hseg Hnot Hfuel Hl.
  - destruct Hseg as [-> _].
    destruct fuel; simpl; rewrite Z.eqb_refl; reflexivity.
  - destruct Hseg as [-> (e & He & _ & _ & _ & _ & Hrest)].
    destruct fuel as [| fuel]; [simpl in Hfuel; lia |].
    assert (a ≠ head) as Hne by (intros ->; apply Hnot; simpl; left).
    rewrite (load_list_elem _ _ _ He) in Hl. inversion Hl; subst l.
    destruct (dseg_first_loadable _ _ _ _ _ _ _ Hh Hrest) as [l' Hl'].
    simpl. rewrite (proj2 (Z.eqb_neq _ _) Hne).
    rewrite Hl'. simpl.
    rewrite (IH fuel a (next (list_ e)) l' Hrest);
      [reflexivity | | | exact Hl'].
    + intros Hin. apply Hnot. simpl. right. exact Hin.
    + simpl in Hfuel. lia.
Qed.

Lemma read_records_dseg m before first cells last after :
  dseg (heap m) before first cells last after ->
  read_records m (cells.*1) = Ok (cells.*2).
Proof.
  revert before first.
  induction cells as [| [a [mv w]] rest IH]; intros before first; simpl;
    [reflexivity |].
  intros [-> (e & He & _ & Hw & Hlen & Hv & Hrest)].
  unfold read_record, load_elem, load_ints. rewrite He. simpl.
  rewrite Hv. simpl.
  replace (len e <? 0) with false by (symmetry; apply Z.ltb_ge; lia).
  replace (Z.of_nat (length mv) <? len e) with false
    by (symmetry; apply Z.ltb_ge; lia).
  simpl. pose proof (IH _ _ Hrest) as IH'. unfold fmap in IH'.
  rewrite IH'. simpl.
  rewrite Hlen, Nat2Z.id, firstn_all, Hw. reflexivity.
Qed.

Lemma list_for_each_entry_safe_queue m head cells :
  is_queue m head cells ->
  list_for_each_entry_safe m head = Ok (cells.*1).
Proof.
  intros Hq. pose proof (is_queue_head_not_cell _ _ _ Hq) as Hnot.
  destruct Hq as (lh & Hh & Hseg & Hnd & _).
  pose proof (load_list_head _ _ _ Hh) as Hlh.
  destruct (dseg_first_loadable _ _ _ _ _ _ _ Hlh Hseg) as [l Hl].
  unfold list_for_each_entry_safe. rewrite Hlh. simpl. rewrite Hl. simpl.
  eapply for_each_loop_dseg; eauto.
  rewrite <- (length_fmap fst cells).
  apply cells_bounded_by_heap; [exact Hnd |].
  intros a Ha. destruct (dseg_allocated _ _ _ _ _ _ _ Hseg Ha) as [e He].
  rewrite He. eauto.
Qed.

Lemma q_records_queue m head cells :
  is_queue m head cells -> q_records m head = Ok (cells.*2).
Proof.
  intros Hq. unfold q_records.
  rewrite (list_for_each_entry_safe_queue _ _ _ Hq). simpl.
  destruct Hq as (lh & _ & Hseg & _). eapply read_records_dseg, Hseg.
Qed.

(** ** q_new and list_add *)

Lemma q_new_fails m :
  next_malloc_ok m = false ->
  q_new m =
  Ok (NULL, Mem (heap m) (tail (alloc_ok m)) (S (mallocs m)) (trace m)).
Proof.
  unfold next_malloc_ok, q_new, malloc.
  destruct (alloc_ok m) as [| [|] o]; intros H; try discriminate;
    reflexivity.
Qed.

Lemma q_new_succeeds m :
  next_malloc_ok m = true ->
  heap m !! NULL = None ->
  ∃ m', q_new m = Ok (fresh_addr (heap m), m') ∧
        is_queue m' (fresh_addr (heap m)) [] ∧
        alloc_ok m' = tail (alloc_ok m) ∧
        mallocs m' = S (mallocs m) ∧
        trace m' = trace m.
Proof.
  unfold next_malloc_ok, q_new, malloc.
  destruct (alloc_ok m) as [| [|] o]; intros H Hnull; try discriminate.
  pose proof (fresh_addr_not_NULL (heap m)) as Hp.
  set (p := fresh_addr (heap m)) in *.
  rewrite (eqb_NULL_false _ Hp).
  unfold INIT_LIST_HEAD, store_list. simpl.
  rewrite lookup_insert_eq. simpl. rewrite lookup_insert_eq. simpl.
  eexists. split; [reflexivity |].
  split; [| simpl; auto].
  exists (ListHead p p). simpl. rewrite lookup_insert_eq.
  repeat split; try reflexivity; [constructor |].
  rewrite !lookup_insert_ne by exact Hp.
  exact Hnull.
Qed.

Lemma list_add_queue m head cells n e mv :
  is_queue m head cells ->
  heap m !! n = Some (BElem e) ->
  n ∉ cells.*1 ->
  heap m !! value e = Some (BInts mv) ->
  len e = Z.of_nat (length mv) ->
  ∃ m', list_add n head m = Ok m' ∧
        is_queue m' head ((n, (mv, ai e)) :: cells) ∧
        alloc_ok m' = alloc_ok m ∧
        mallocs m' = mallocs m ∧
        trace m' = trace m.
Proof.
  intros Hq Hn Hfresh Hv Hlen.
  pose proof (is_queue_head_not_cell _ _ _ Hq) as Hhc.
  destruct Hq as (lh & Hh & Hseg & Hnd & Hnull).
  assert (n ≠ head) as Hnh by (intros ->; rewrite Hh in Hn; discriminate).
  assert (value e ≠ head) as Hvh
    by (intros E; rewrite E, Hh in Hv; discriminate).
  assert (value e ≠ n) as Hvn
    by (intros E; rewrite E, Hn in Hv; discriminate).
  unfold list_add. rewrite (load_list_head _ _ _ Hh). simpl.
  destruct cells as [| [a [mv1 w1]] rest].
  - destruct Hseg as [Hnext Hprev]. rewrite Hnext.
    rewrite (store_list_head _ _ _ _ Hh). simpl.
    erewrite store_list_elem
      by (simpl; rewrite lookup_insert_ne by congruence; exact Hn).
    simpl.
    erewrite store_list_elem by (simpl; apply lookup_insert_eq).
    simpl.
    erewrite store_list_head
      by (simpl; rewrite !lookup_insert_ne by congruence;
          apply lookup_insert_eq).
    simpl. eexists. split; [reflexivity |]. split; [| auto].
    eexists. simpl. split; [apply lookup_insert_eq |]. simpl.
    split; [| split].
    + split; [reflexivity |]. eexists.
      split; [rewrite lookup_insert_ne by congruence; apply lookup_insert_eq |].
      simpl. repeat split; try reflexivity; try assumption.
      rewrite !lookup_insert_ne by congruence. exact Hv.
    + constructor; [inversion 1 | constructor].
    + rewrite !lookup_insert_ne
        by (intros E; rewrite <- E in Hnull; congruence).
      exact Hnull.
  - destruct Hseg as [Hnext (e1 & He1 & Hp1 & Hw1 & Hl1 & Hv1 & Hrest)].
    rewrite Hnext.
    assert (a ≠ head) as Hah by (intros ->; rewrite Hh in He1; discriminate).
    assert (a ≠ n) as Han by (intros ->; apply Hfresh; simpl; left).
    rewrite (store_list_elem _ _ _ _ He1). simpl.
    erewrite store_list_elem
      by (simpl; rewrite lookup_insert_ne by congruence; exact Hn).
    simpl.
    erewrite store_list_elem by (simpl; apply lookup_insert_eq).
    simpl.
    erewrite store_list_head
      by (simpl; rewrite !lookup_insert_ne by congruence; exact Hh).
    simpl. eexists. split; [reflexivity |]. split; [| auto].
    eexists. simpl. split; [apply lookup_insert_eq |]. simpl.
    split; [| split].
    + split; [reflexivity |]. eexists.
      split; [rewrite lookup_insert_ne by congruence; apply lookup_insert_eq |].
      simpl. repeat split; try reflexivity; try assumption.
      { assert (value e ≠ a)
          by (intros E; rewrite E, He1 in Hv; discriminate).
        rewrite !lookup_insert_ne by congruence. exact Hv. }
      eexists.
      split;
        [rewrite !lookup_insert_ne by congruence; apply lookup_insert_eq |].
      simpl. repeat split; try reflexivity; try assumption.
      { assert (value e1 ≠ head)
          by (intros E; rewrite E, Hh in Hv1; discriminate).
        assert (value e1 ≠ n)
          by (intros E; rewrite E, Hn in Hv1; discriminate).
        assert (value e1 ≠ a)
          by (intros E; rewrite E, He1 in Hv1; discriminate).
        rewrite !lookup_insert_ne by congruence. exact Hv1. }
      eapply dseg_frame; [| | exact Hrest].
      * intros b Hb.
        assert (b ≠ head) by (intros ->; apply Hhc; simpl; right; exact Hb).
        assert (b ≠ n) by (intros ->; apply Hfresh; simpl; right; exact Hb).
        assert (b ≠ a)
          by (intros ->; simpl in Hnd; apply NoDup_cons in Hnd as [Hna _];
              apply Hna; exact Hb).
        rewrite !lookup_insert_ne by congruence. reflexivity.
      * intros p ints Hp.
        assert (p ≠ head) by (intros ->; rewrite Hh in Hp; discriminate).
        assert (p ≠ n) by (intros ->; rewrite Hn in Hp; discriminate).
        assert (p ≠ a) by (intros ->; rewrite He1 in Hp; discriminate).
        rewrite !lookup_insert_ne by congruence. exact Hp.
    + simpl. constructor; [exact Hfresh | exact Hnd].
    + rewrite !lookup_insert_ne
        by (intros E; rewrite <- E in Hnull; congruence).
      exact Hnull.
Qed.

(** ** q_insert_head *)

Lemma q_insert_head_NULL move len ai m :
  q_insert_head NULL move len ai m =
  Ok (false, emit (Printf ("Queue head is NULL" ++ nl)) m).
Proof. reflexivity. Qed.

Lemma q_insert_head_node_fails head move len ai m :
  head ≠ NULL ->
  next_malloc_ok m = false ->
  q_insert_head head move len ai m =
  Ok (false,
      emit alloc_msg
        (Mem (heap m) (tail (alloc_ok m)) (S (mallocs m)) (trace m))).
Proof.
  intros Hh Hfail. unfold q_insert_head, next_malloc_ok, malloc in *.
  rewrite (eqb_NULL_false _ Hh).
  destruct (alloc_ok m) as [| [|] o]; try discriminate; reflexivity.
Qed.

Lemma q_insert_head_array_fails head move len ai m :
  head ≠ NULL ->
  next_malloc_ok m = true ->
  len < 0 ∨ second_malloc_ok m = false ->
  q_insert_head head move len ai m =
  Ok (false,
      emit alloc_msg
        (Mem (heap m) (tail (tail (alloc_ok m))) (S (S (mallocs m)))
           (trace m))).
Proof.
  intros Hh Hok Hfail.
  unfold q_insert_head, next_malloc_ok, second_malloc_ok, malloc in *.
  rewrite (eqb_NULL_false _ Hh).
  destruct (alloc_ok m) as [| [|] o] eqn:Ho; try discriminate.
  pose proof (fresh_addr_not_NULL (heap m)) as Hn.
  pose proof (fresh_addr_None (heap m)) as Hnone.
  set (n := fresh_addr (heap m)) in *.
  rewrite (eqb_NULL_false _ Hn).
  assert (malloc_ints len
            (Mem (<[n := BElem (Element NULL 0 0 (ListHead NULL NULL))]>
                    (heap m)) o (S (mallocs m)) (trace m)) =
          (NULL,
           Mem (<[n := BElem (Element NULL 0 0 (ListHead NULL NULL))]>
                  (heap m)) (tail o) (S (S (mallocs m))) (trace m))) as ->.
  { unfold malloc_ints, malloc. simpl.
    destruct (len <? 0) eqn:Hlen; [reflexivity |].
    destruct Hfail as [Hneg | Hsec]; [apply Z.ltb_ge in Hlen; lia |].
    destruct o as [| [|] o']; try discriminate; reflexivity. }
  unfold store_elem, load_elem. simpl. rewrite lookup_insert_eq. simpl.
  rewrite lookup_insert_eq. simpl.
  unfold free. rewrite (eqb_NULL_false _ Hn). unfold set_heap. simpl.
  rewrite delete_insert_eq, delete_insert_id by exact Hnone.
  reflexivity.
Qed.

Lemma q_insert_head_succeeds head cells move len ai m :
  is_queue m head cells ->
  next_malloc_ok m = true ->
  second_malloc_ok m = true ->
  0 <= len <= Z.of_nat (length move) ->
  ∃ n m', q_insert_head head move len ai m = Ok (true, m') ∧
          is_queue m' head ((n, (take (Z.to_nat len) move, ai)) :: cells) ∧
          heap m !! n = None ∧
          alloc_ok m' = tail (tail (alloc_ok m)) ∧
          mallocs m' = S (S (mallocs m)) ∧
          trace m' = trace m.
Proof.
  intros Hq Hok1 Hok2 Hlen.
  pose proof (is_queue_head_not_NULL _ _ _ Hq) as Hh.
  unfold q_insert_head, next_malloc_ok, second_malloc_ok, malloc_ints,
    malloc in *.
  rewrite (eqb_NULL_false _ Hh).
  destruct (alloc_ok m) as [| [|] [| [|] o]] eqn:Ho; try discriminate.
  pose proof (fresh_addr_not_NULL (heap m)) as Hn.
  pose proof (fresh_addr_None (heap m)) as Hnone.
  set (n := fresh_addr (heap m)) in *.
  rewrite (eqb_NULL_false _ Hn).
  replace (len <? 0) with false by (symmetry; apply Z.ltb_ge; lia).
  simpl.
  set (h1 := <[n := BElem (Element NULL 0 0 (ListHead NULL NULL))]> (heap m)).
  pose proof (fresh_addr_not_NULL h1) as Hv.
  pose proof (fresh_addr_None h1) as Hvnone.
  set (v := fresh_addr h1) in *.
  assert (v ≠ n) as Hvn.
  { intros E. rewrite E in Hvnone. unfold h1 in Hvnone.
    rewrite lookup_insert_eq in Hvnone. discriminate. }
  assert (heap m !! v = None) as Hvm.
  { unfold h1 in Hvnone. rewrite lookup_insert_ne in Hvnone by congruence.
    exact Hvnone. }
  clearbody v. clear Hvnone. subst h1.
  unfold store_elem, load_elem, memcpy_ints, load_ints. simpl.
  heap_lookups. rewrite (eqb_NULL_false _ Hv). heap_lookups.
  replace (Z.of_nat (length move) <? len) with false
    by (symmetry; apply Z.ltb_ge; lia).
  rewrite length_replicate, Z2Nat.id by lia.
  replace (len <? len) with false by (symmetry; apply Z.ltb_ge; lia).
  simpl. rewrite drop_replicate, Nat.sub_diag, app_nil_r.
  replace (len <? 0) with false by (symmetry; apply Z.ltb_ge; lia).
  unfold set_heap. simpl.
  match goal with
  | |- context [list_add n head ?x] => set (m6 := x)
  end.
  assert (is_queue m6 head cells) as Hq6.
  { destruct Hq as (lh & Hhd & Hseg & Hnd & Hnull).
    exists lh. unfold m6, set_heap. simpl.
    assert (head ≠ n) by (intros ->; rewrite Hnone in Hhd; discriminate).
    assert (head ≠ v) by (intros ->; rewrite Hvm in Hhd; discriminate).
    split; [rewrite !lookup_insert_ne by congruence; exact Hhd |].
    split; [| split; [exact Hnd |]].
    - eapply dseg_frame; [| | exact Hseg].
      + intros a Ha.
        destruct (dseg_allocated _ _ _ _ _ _ _ Hseg Ha) as [ea Hea].
        assert (a ≠ n) by (intros ->; rewrite Hnone in Hea; discriminate).
        assert (a ≠ v) by (intros ->; rewrite Hvm in Hea; discriminate).
        rewrite !lookup_insert_ne by congruence. reflexivity.
      + intros p ints Hp.
        assert (p ≠ n) by (intros ->; rewrite Hnone in Hp; discriminate).
        assert (p ≠ v) by (intros ->; rewrite Hvm in Hp; discriminate).
        rewrite !lookup_insert_ne by congruence. exact Hp.
    - rewrite !lookup_insert_ne by congruence. exact Hnull. }
  destruct (list_add_queue m6 head cells n
              (Element v len ai (ListHead NULL NULL))
              (take (Z.to_nat len) move) Hq6)
    as (m' & Hadd & Hq' & Ha & Hm & Ht).
  - unfold m6, set_heap. simpl.
    rewrite lookup_insert_ne by congruence. apply lookup_insert_eq.
  - intros Hin. destruct Hq as (lh & _ & Hseg & _).
    destruct (dseg_allocated _ _ _ _ _ _ _ Hseg Hin) as [ea Hea].
    rewrite Hnone in Hea. discriminate.
  - unfold m6, set_heap. simpl. apply lookup_insert_eq.
  - simpl. rewrite length_take. lia.
  - exists n, m'. rewrite Hadd. simpl.
    split; [reflexivity |]. split; [exact Hq' |].
    split; [exact Hnone |]. rewrite Ha, Hm, Ht. unfold m6. simpl. auto.
Qed.

Lemma q_insert_head_true head cells move len ai m m' :
  is_queue m head cells ->
  len <= Z.of_nat (length move) ->
  q_insert_head head move len ai m = Ok (true, m') ->
  ∃ n, is_queue m' head ((n, (take (Z.to_nat len) move, ai)) :: cells) ∧
       heap m !! n = None ∧
       mallocs m' = S (S (mallocs m)) ∧
       trace m' = trace m.
Proof.
  intros Hq Hlen Hrun.
  pose proof (is_queue_head_not_NULL _ _ _ Hq) as Hh.
  destruct (next_malloc_ok m) eqn:H1.
  - destruct (second_malloc_ok m) eqn:H2.
    + destruct (Z_lt_dec len 0) as [Hneg | Hpos].
      * rewrite q_insert_head_array_fails in Hrun by auto. discriminate.
      * destruct (q_insert_head_succeeds head cells move len ai m)
          as (n & m1 & Hrun1 & Hq1 & Hnone & _ & Hm & Ht);
          [assumption | assumption | assumption | lia |].
        rewrite Hrun1 in Hrun. inversion Hrun; subst m1. eauto.
    + rewrite q_insert_head_array_fails in Hrun by auto. discriminate.
  - rewrite q_insert_head_node_fails in Hrun by auto. discriminate.
Qed.

(** ** Which faults the heap operations can raise *)

Lemma bind_Ok {A B : Type} (a : A) (k : A -> outcome B) :
  Ok a ≫= k = k a.
Proof. reflexivity. Qed.

Lemma heap_faults_bind {A B : Type} (x : outcome A) (k : A -> outcome B) :
  heap_faults_only x -> (∀ a, heap_faults_only (k a)) ->
  heap_faults_only (x ≫= k).
Proof. destruct x; simpl; [auto | auto | intros []]. Qed.

Lemma store_list_faults m p f : heap_faults_only (store_list m p f).
Proof.
  unfold store_list. destruct (heap m !! p) as [[| |] |]; simpl; auto.
Qed.

Lemma load_list_faults m p : heap_faults_only (load_list m p).
Proof.
  unfold load_list. destruct (heap m !! p) as [[| |] |]; simpl; auto.
Qed.

Lemma store_elem_faults m p f : heap_faults_only (store_elem m p f).
Proof.
  unfold store_elem. destruct (heap m !! p) as [[| |] |]; simpl; auto.
Qed.

Lemma load_elem_faults m p : heap_faults_only (load_elem m p).
Proof.
  unfold load_elem. destruct (heap m !! p) as [[| |] |]; simpl; auto.
Qed.

Lemma memcpy_ints_faults m dst src n :
  heap_faults_only (memcpy_ints m dst src n).
Proof.
  unfold memcpy_ints, load_ints.
  destruct (heap m !! dst) as [[| |] |]; simpl; auto.
  destruct ((n <? 0) || _); simpl; auto.
  destruct (_ <? n); simpl; auto.
Qed.

Lemma list_add_faults node head m : heap_faults_only (list_add node head m).
Proof.
  unfold list_add.
  repeat (apply heap_faults_bind;
          [first [apply load_list_faults | apply store_list_faults] | intros]).
  apply store_list_faults.
Qed.

Lemma q_insert_head_faults head move len ai m :
  heap_faults_only (q_insert_head head move len ai m).
Proof.
  unfold q_insert_head.
  destruct (head =? NULL); [exact I |].
  destruct (malloc _ m) as [node m1].
  destruct (node =? NULL); [exact I |].
  destruct (malloc_ints len m1) as [v m2].
  apply heap_faults_bind; [apply store_elem_faults | intros m3].
  apply heap_faults_bind; [apply load_elem_faults | intros e].
  destruct (value e =? NULL); [exact I |].
  apply heap_faults_bind; [apply store_elem_faults | intros m4].
  apply heap_faults_bind; [apply store_elem_faults | intros m5].
  apply heap_faults_bind; [apply load_elem_faults | intros e'].
  apply heap_faults_bind; [apply memcpy_ints_faults | intros m6].
  apply heap_faults_bind; [apply list_add_faults | intros m7].
  exact I.
Qed.

(** ** Claims about the codec and the queue *)



(** C10. With the null pointer as queue, q_insert_head returns false; the
    heap, the allocator and the count of malloc calls are as before, and
    the only effect is the line printed. So when q_new has failed and its
    result is passed on, nothing is allocated or written. *)
Theorem q_insert_head_null_queue (move : list Z) (len ai : Z) (m : mem) :
  q_insert_head NULL move len ai m =
    Ok (false, Mem (heap m) (alloc_ok m) (mallocs m)
                 (trace m ++ [Printf ("Queue head is NULL" ++ nl)])) ∧
  (next_malloc_ok m = false ->
   ∃ m1, q_new m = Ok (NULL, m1) ∧ heap m1 = heap m ∧
         q_insert_head NULL move len ai m1 =
           Ok (false, Mem (heap m) (alloc_ok m1) (mallocs m1)
                        (trace m ++ [Printf ("Queue head is NULL" ++ nl)]))).
Proof.
  split; [reflexivity |].
  intros Hfail. eexists. split; [apply q_new_fails, Hfail |].
  split; reflexivity.
Qed.

Lemma q_insert_head_null_queue_witness :
  q_insert_head NULL [0; 4] 2 88 (Mem ∅ [] 0 []) =
    Ok (false, Mem ∅ [] 0 [Printf ("Queue head is NULL" ++ nl)]) ∧
  ∃ m1, q_new (Mem ∅ [] 0 []) = Ok (NULL, m1) ∧ heap m1 = ∅ ∧
        q_insert_head NULL [0; 4] 2 88 m1 =
          Ok (false, Mem ∅ (alloc_ok m1) (mallocs m1)
                       [Printf ("Queue head is NULL" ++ nl)]).
Proof.
  destruct (q_insert_head_null_queue [0; 4] 2 88 (Mem ∅ [] 0 []))
    as [H1 H2].
  split; [exact H1 | apply H2; reflexivity].
Defined.

(** C4. On a well-formed queue and a non-empty move sequence, when the
    allocation of the node fails, or the node is allocated and the
    allocation of the move array fails, q_insert_head returns false and
    the heap is exactly what it was: the queue holds the same entries, and
    in the second case the address malloc gave to the node is free
    again. *)
Theorem q_insert_head_allocation_failure
    (head : Z) (cells : list cell) (move : list Z) (len ai : Z) (m : mem) :
  is_queue m head cells ->
  move ≠ [] ->
  len = Z.of_nat (length move) ->
  next_malloc_ok m = false ∨
  (next_malloc_ok m = true ∧ second_malloc_ok m = false) ->
  ∃ m', q_insert_head head move len ai m = Ok (false, m') ∧
        heap m' = heap m ∧
        is_queue m' head cells ∧
        q_records m' head = Ok (cells.*2) ∧
        (next_malloc_ok m = false -> mallocs m' = S (mallocs m)) ∧
        (next_malloc_ok m = true ->
         mallocs m' = S (S (mallocs m)) ∧
         heap m' !! fresh_addr (heap m) = None).
Proof.
  intros Hq _ _ Hfail.
  pose proof (is_queue_head_not_NULL _ _ _ Hq) as Hh.
  assert (∀ m', heap m' = heap m -> is_queue m' head cells) as Hsame.
  { intros m' E. unfold is_queue. rewrite E. exact Hq. }
  destruct Hfail as [H1 | [H1 H2]].
  - rewrite q_insert_head_node_fails by assumption.
    eexists. split; [reflexivity |]. simpl.
    split; [reflexivity |]. split; [apply Hsame; reflexivity |].
    split; [apply q_records_queue, Hsame; reflexivity |].
    split; [reflexivity | congruence].
  - rewrite q_insert_head_array_fails by auto.
    eexists. split; [reflexivity |]. simpl.
    split; [reflexivity |]. split; [apply Hsame; reflexivity |].
    split; [apply q_records_queue, Hsame; reflexivity |].
    split; [congruence |]. intros _.
    split; [reflexivity | apply fresh_addr_None].
Qed.

(** C7. On a well-formed queue, after q_insert_head with moves1 and 'X'
    and then q_insert_head with moves2 and 'O', both returning true, the
    front-to-back traversal reads the record of moves2 and 'O' first, the
    record of moves1 and 'X' second, and then the records that were
    there. *)
Theorem q_insert_head_most_recent_first
    (head : Z) (cells : list cell) (moves1 moves2 : list Z) (m m1 m2 : mem) :
  is_queue m head cells ->
  moves1 ≠ [] ->
  moves2 ≠ [] ->
  q_insert_head head moves1 (Z.of_nat (length moves1)) 88 m = Ok (true, m1) ->
  q_insert_head head moves2 (Z.of_nat (length moves2)) 79 m1 = Ok (true, m2) ->
  q_records m2 head = Ok ((moves2, 79) :: (moves1, 88) :: cells.*2).
Proof.
  intros Hq _ _ Hfirst Hsecond.
  destruct (q_insert_head_true _ _ _ _ _ _ _ Hq (Z.le_refl _) Hfirst)
    as (n1 & Hq1 & _).
  destruct (q_insert_head_true _ _ _ _ _ _ _ Hq1 (Z.le_refl _) Hsecond)
    as (n2 & Hq2 & _).
  rewrite (q_records_queue _ _ _ Hq2). simpl.
  rewrite !Nat2Z.id, !firstn_all. reflexivity.
Qed.

Lemma empty_queue_is_queue o : is_queue (empty_queue o) 1 [].
Proof.
  exists (ListHead 1 1). simpl.
  repeat split; try reflexivity. constructor.
Qed.

Lemma q_insert_head_allocation_failure_witness :
  ∃ m', q_insert_head 1 [0; 4] 2 88 (empty_queue [true; false]) =
          Ok (false, m') ∧
        heap m' = heap (empty_queue [true; false]) ∧
        is_queue m' 1 [] ∧
        q_records m' 1 = Ok [] ∧
        (next_malloc_ok (empty_queue [true; false]) = false ->
         mallocs m' = 2%nat) ∧
        (next_malloc_ok (empty_queue [true; false]) = true ->
         mallocs m' = 3%nat ∧
         heap m' !! fresh_addr (heap (empty_queue [true; false])) = None).
Proof.
  apply (q_insert_head_allocation_failure 1 [] [0; 4] 2 88
           (empty_queue [true; false])).
  - apply empty_queue_is_queue.
  - discriminate.
  - reflexivity.
  - right. split; reflexivity.
Defined.

Lemma q_insert_head_most_recent_first_witness :
  ∃ m1 m2,
    q_insert_head 1 [0; 4] 2 88 (empty_queue [true; true; true; true]) =
      Ok (true, m1) ∧
    q_insert_head 1 [8] 1 79 m1 = Ok (true, m2) ∧
    q_records m2 1 = Ok [([8], 79); ([0; 4], 88)].
Proof.
  destruct (q_insert_head 1 [0; 4] 2 88 (empty_queue [true; true; true; true]))
    as [[[|] m1] | |] eqn:E1; try (vm_compute in E1; discriminate).
  destruct (q_insert_head 1 [8] 1 79 m1) as [[[|] m2] | |] eqn:E2;
    try (vm_compute in E1; inversion E1; subst m1;
         vm_compute in E2; discriminate).
  exists m1, m2. split; [reflexivity |]. split; [exact E2 |].
  apply (q_insert_head_most_recent_first 1 [] [0; 4] [8]
           (empty_queue [true; true; true; true]) m1 m2).
  - apply empty_queue_is_queue.
  - discriminate.
  - discriminate.
  - exact E1.
  - exact E2.
Defined.

(** C3, as the code has it. q_insert_head has no test on the length: on
    a well-formed queue, called with zero moves, it allocates, and when
    both allocations succeed it links an entry without moves and returns
    true. The test for an empty move log is in record_to_queue, which then
    returns at once: nothing is allocated, nothing is inserted, the state
    is what it was. *)
Theorem zero_moves_guard_is_in_record_to_queue :
  (∀ (winner : Z) (st : XoUser.state),
     XoUser.move_count st = 0 ->
     XoUser.record_to_queue winner st = Ok st) ∧
  (∀ (head : Z) (cells : list cell) (move : list Z) (ai : Z) (m : mem),
     is_queue m head cells ->
     next_malloc_ok m = true ->
     second_malloc_ok m = true ->
     ∃ n m', q_insert_head head move 0 ai m = Ok (true, m') ∧
             is_queue m' head ((n, ([], ai)) :: cells) ∧
             mallocs m' = S (S (mallocs m))).
Proof.
  split.
  - intros winner st Hzero. unfold XoUser.record_to_queue.
    rewrite Hzero. reflexivity.
  - intros head cells move ai m Hq H1 H2.
    destruct (q_insert_head_succeeds head cells move 0 ai m Hq H1 H2)
      as (n & m' & Hrun & Hq' & _ & _ & Hm & _); [lia |].
    exists n, m'. auto.
Qed.

(** C3, counterexample: on the empty queue, q_insert_head with zero moves
    returns true, has called malloc twice, and the traversal then finds
    an entry; and if the zero-size malloc returns NULL the node has still
    been allocated (and freed) before false is returned. *)
Lemma q_insert_head_zero_moves_not_no_op :
  (∃ m', q_insert_head 1 [] 0 88 (empty_queue [true; true]) =
           Ok (true, m') ∧
         mallocs (empty_queue [true; true]) = 1%nat ∧
         mallocs m' = 3%nat ∧
         q_records (empty_queue [true; true]) 1 = Ok [] ∧
         q_records m' 1 = Ok [([], 88)]) ∧
  (∃ m', q_insert_head 1 [] 0 88 (empty_queue [true; false]) =
           Ok (false, m') ∧
         mallocs m' = 3%nat).
Proof.
  split; eexists; vm_compute; repeat split; reflexivity.
Qed.

Lemma zero_moves_guard_is_in_record_to_queue_witness :
  XoUser.record_to_queue 88
    (XoUser.State [0; 0; 0] 0 1 true false [32; 32; 32] (Pkg.Package 216 (-1))
       (empty_queue [true; true])) =
  Ok (XoUser.State [0; 0; 0] 0 1 true false [32; 32; 32]
        (Pkg.Package 216 (-1)) (empty_queue [true; true])) ∧
  ∃ n m', q_insert_head 1 [] 0 88 (empty_queue [true; true]) =
            Ok (true, m') ∧
          is_queue m' 1 [(n, ([], 88))] ∧
          mallocs m' = 3%nat.
Proof.
  destruct zero_moves_guard_is_in_record_to_queue as [Hguard Hpush].
  split.
  - apply Hguard. reflexivity.
  - apply (Hpush 1 [] [] 88 (empty_queue [true; true])).
    + apply empty_queue_is_queue.
    + reflexivity.
    + reflexivity.
Defined.

(** ** Claims about the session loop *)

Section session.

Import Pkg XoUser.

Variables BOARD_SIZE N_GRIDS DRAWBUFFER_SIZE : Z.

Local Abbreviation device_ready :=
  (XoUser.device_ready BOARD_SIZE N_GRIDS DRAWBUFFER_SIZE).
Local Abbreviation main_loop :=
  (XoUser.main_loop BOARD_SIZE N_GRIDS DRAWBUFFER_SIZE).
Local Abbreviation draw_board :=
  (XoUser.draw_board BOARD_SIZE N_GRIDS DRAWBUFFER_SIZE).

(** C6. When the record decoded by the device branch has move -1 and its
    end flag clear, the branch only stores the record in pkg_obj: the
    board, the move log, the queue header, the heap and the output (so no
    board is printed) and both flags are what they were, and the loop goes
    on to the next wake-up. *)
Theorem heartbeat_changes_nothing (rd : option package) (st : state) :
  move (received rd st) = -1 ->
  PKG_GET_END (val (received rd st)) = false ->
  ∃ st', device_ready rd st = Ok st' ∧
         table st' = table st ∧
         move_record st' = move_record st ∧
         move_count st' = move_count st ∧
         head st' = head st ∧
         memory st' = memory st ∧
         read_attr st' = read_attr st ∧
         end_attr st' = end_attr st ∧
         ∀ (t : tick) (rest : list tick),
           end_attr st = false ->
           0 <= result (sel t) ->
           stdin_set (sel t) = false ->
           device_set (sel t) = true ->
           dev t = rd ->
           main_loop (t :: rest) st = main_loop rest st'.
Proof.
  intros Hmove Hend. exists (set_pkg_obj (received rd st) st).
  assert (device_ready rd st = Ok (set_pkg_obj (received rd st) st)) as Hrun.
  { unfold XoUser.device_ready, received in *.
    destruct rd as [p |]; simpl in *; rewrite Hmove, Hend; simpl;
      [reflexivity |].
    destruct st; reflexivity. }
  split; [exact Hrun |]. repeat (split; [reflexivity |]).
  intros t rest Hrunning Hres Hstdin Hdev Hrd. simpl.
  rewrite Hrunning. unfold XoUser.loop_body.
  replace (result (sel t) <? 0) with false by (symmetry; apply Z.ltb_ge; lia).
  rewrite Hstdin, Hdev, Hrd, Hrun. reflexivity.
Qed.

(** C8. On the byte 17 (Ctrl-Q) the keyboard handler issues a 6-byte read
    of the attribute file, stores '1' at offset 4 of what was read, writes
    those 6 bytes back, and leaves read_attr false and end_attr true; the
    loop, tested with end_attr true, exits without serving a further
    wake-up. *)
Theorem terminate_key (k : keyboard) (st : state) :
  input k = Some 17 ->
  length (buf k) = 20%nat ->
  let st' := listen_keyboard_handler k st in
  trace (memory st') =
    trace (memory st) ++
      [SysOpen XO_DEVICE_ATTR_FILE (attr_fd k);
       SysRead STDIN_FILENO 1;
       SysRead (attr_fd k) 6;
       SysWrite (attr_fd k) (<[4%nat := 49]> (take 6 (buf k)));
       Printf ("Stopping the kernel space tic-tac-toe game..." ++ nl);
       SysClose (attr_fd k)] ∧
  length (<[4%nat := 49]> (take 6 (buf k))) = 6%nat ∧
  <[4%nat := 49]> (take 6 (buf k)) !! 4%nat = Some 49 ∧
  read_attr st' = false ∧
  end_attr st' = true ∧
  heap (memory st') = heap (memory st) ∧
  table st' = table st ∧
  move_record st' = move_record st ∧
  move_count st' = move_count st ∧
  (∀ ticks : list tick, main_loop ticks st' = Ok (LoopExited, st')) ∧
  (∀ (t : tick) (rest : list tick),
     end_attr st = false ->
     0 <= result (sel t) ->
     stdin_set (sel t) = true ->
     kb t = k ->
     main_loop (t :: rest) st = Ok (LoopExited, st')).
Proof.
  intros Hin Hlen st'. subst st'. unfold listen_keyboard_handler.
  rewrite Hin. simpl.
  rewrite take_insert_lt by lia. rewrite <- !app_assoc. simpl.
  split; [reflexivity |].
  split; [rewrite length_insert, length_take; lia |].
  split; [apply list_lookup_insert_eq; rewrite length_take; lia |].
  repeat (split; [reflexivity |]).
  split; [intros ticks; destruct ticks; reflexivity |].
  intros t rest Hrunning Hres Hstdin Hkb. simpl. rewrite Hrunning.
  unfold XoUser.loop_body.
  replace (result (sel t) <? 0) with false by (symmetry; apply Z.ltb_ge; lia).
  rewrite Hstdin, Hkb, bind_Ok. unfold listen_keyboard_handler.
  rewrite Hin. destruct rest; simpl; rewrite take_insert_lt by lia;
    reflexivity.
Qed.

Lemma record_to_queue_faults winner st :
  heap_faults_only (record_to_queue winner st).
Proof.
  unfold record_to_queue. destruct (move_count st =? 0); [exact I |].
  apply heap_faults_bind; [apply q_insert_head_faults |].
  intros [[|] m']; exact I.
Qed.

Lemma pkg_obj_received rd st :
  pkg_obj (match rd with Some p => set_pkg_obj p st | None => st end) =
  received rd st.
Proof. destruct rd; reflexivity. Qed.

(** C9. When the decoded move is not -1 the device branch stores into
    table[move] and then into move_record[move_count], and nothing in the
    code tests either index: the first store is out of bounds exactly when
    move is outside [0, N_GRIDS), and, the first being in bounds, the
    second is out of bounds exactly when N_GRIDS moves are already
    recorded. *)
Theorem device_ready_array_bounds (rd : option package) (st : state) :
  move (received rd st) ≠ -1 ->
  0 <= move_count st ->
  (device_ready rd st = Fault TableOutOfBounds ↔
   ¬ (0 <= move (received rd st) < N_GRIDS)) ∧
  (device_ready rd st = Fault MoveRecordOutOfBounds ↔
   0 <= move (received rd st) < N_GRIDS ∧ ¬ (move_count st < N_GRIDS)).
Proof.
  intros Hmove Hcount. unfold XoUser.device_ready.
  rewrite pkg_obj_received.
  set (st1 := match rd with Some p => set_pkg_obj p st | None => st end).
  assert (move_count st1 = move_count st) as Hc1
    by (unfold st1; destruct rd; reflexivity).
  set (pkg := received rd st) in *.
  rewrite (proj2 (Z.eqb_neq _ _) Hmove). simpl.
  destruct ((0 <=? move pkg) && (move pkg <? N_GRIDS)) eqn:Hin.
  - apply andb_true_iff in Hin as [H0 HN].
    apply Z.leb_le in H0. apply Z.ltb_lt in HN.
    unfold record_move. simpl. rewrite Hc1.
    destruct ((0 <=? move_count st) && (move_count st <? N_GRIDS)) eqn:Hmc.
    + apply andb_true_iff in Hmc as [_ HcN]. apply Z.ltb_lt in HcN. simpl.
      match goal with
      | |- (?r = _ ↔ _) ∧ _ =>
          assert (heap_faults_only r) as Hr
      end.
      { destruct (read_attr _); destruct (PKG_GET_END _); try exact I;
          (apply heap_faults_bind;
           [apply record_to_queue_faults | intros; exact I]). }
      match type of Hr with
      | heap_faults_only ?r => destruct r as [st' | f |]
      end; simpl in Hr.
      * split; split; try discriminate; intros; exfalso; lia.
      * split; split; try (intros; exfalso; lia);
          intros E; inversion E; subst f; destruct Hr; discriminate.
      * destruct Hr.
    + simpl. apply andb_false_iff in Hmc as [Hneg | Hge].
      * apply Z.leb_gt in Hneg. lia.
      * apply Z.ltb_ge in Hge.
        split; split; try discriminate; try reflexivity; intros; lia.
  - simpl.
    assert (¬ (0 <= move pkg < N_GRIDS)) as Hout.
    { apply andb_false_iff in Hin as [H | H];
        [apply Z.leb_gt in H | apply Z.ltb_ge in H]; lia. }
    split; split; try discriminate; try reflexivity; intros; try tauto.
Qed.










End session.

(** ** The scenarios at the board of kxo: BOARD_SIZE 4, N_GRIDS 16,
    DRAWBUFFER_SIZE 66 *)



(** C2, the code at the failing input. The allocator refuses the node of
    the first game's record: after the end record the queue is empty and
    perror has been called, but move_count is still 2 and the log still
    starts with 0, 4; the next game (one move, at cell 8) is then queued
    with the moves 0, 4, 8. *)
Lemma failed_push_keeps_the_move_log :
  ∃ st0 st3 st5,
    XoUser.main_init 16 (Mem ∅ [true; false; true; true] 0 []) = Ok st0 ∧
    XoUser.main_loop 4 16 66
      [device_tick (Pkg.Package 88 0); device_tick (Pkg.Package 79 4);
       device_tick (Pkg.Package (Pkg.PKG_SET_END 88) (-1))] st0 =
      Ok (XoUser.WaitingInSelect, st3) ∧
    last (trace (XoUser.memory st3)) =
      Some (Perror "Failed to insert move into queue") ∧
    q_records (XoUser.memory st3) (XoUser.head st3) = Ok [] ∧
    XoUser.move_count st3 = 2 ∧
    take 2 (XoUser.move_record st3) = [0; 4] ∧
    XoUser.main_loop 4 16 66
      [device_tick (Pkg.Package 88 8);
       device_tick (Pkg.Package (Pkg.PKG_SET_END 88) (-1))] st3 =
      Ok (XoUser.WaitingInSelect, st5) ∧
    q_records (XoUser.memory st5) (XoUser.head st5) = Ok [([0; 4; 8], 88)].
Proof.
  eexists. eexists. eexists. vm_compute. repeat split; reflexivity.
Qed.

Lemma heartbeat_changes_nothing_witness :
  ∃ st', XoUser.device_ready 4 16 66 (Some (Pkg.Package 0 (-1)))
           two_moves_state = Ok st' ∧
         XoUser.table st' = XoUser.table two_moves_state ∧
         XoUser.move_record st' = XoUser.move_record two_moves_state ∧
         XoUser.move_count st' = XoUser.move_count two_moves_state ∧
         XoUser.head st' = XoUser.head two_moves_state ∧
         XoUser.memory st' = XoUser.memory two_moves_state ∧
         XoUser.read_attr st' = XoUser.read_attr two_moves_state ∧
         XoUser.end_attr st' = XoUser.end_attr two_moves_state ∧
         ∀ (t : XoUser.tick) (rest : list XoUser.tick),
           XoUser.end_attr two_moves_state = false ->
           0 <= XoUser.result (XoUser.sel t) ->
           XoUser.stdin_set (XoUser.sel t) = false ->
           XoUser.device_set (XoUser.sel t) = true ->
           XoUser.dev t = Some (Pkg.Package 0 (-1)) ->
           XoUser.main_loop 4 16 66 (t :: rest) two_moves_state =
           XoUser.main_loop 4 16 66 rest st'.
Proof.
  apply (heartbeat_changes_nothing 4 16 66 (Some (Pkg.Package 0 (-1)))
           two_moves_state).
  - reflexivity.
  - reflexivity.
Defined.

Lemma terminate_key_witness :
  let st' := XoUser.listen_keyboard_handler ctrl_q_key two_moves_state in
  trace (XoUser.memory st') =
    trace (XoUser.memory two_moves_state) ++
      [SysOpen XoUser.XO_DEVICE_ATTR_FILE 3;
       SysRead XoUser.STDIN_FILENO 1;
       SysRead 3 6;
       SysWrite 3 [49; 32; 48; 32; 49; 10];
       Printf ("Stopping the kernel space tic-tac-toe game..." ++ nl);
       SysClose 3] ∧
  length (<[4%nat := 49]> (take 6 (XoUser.buf ctrl_q_key))) = 6%nat ∧
  <[4%nat := 49]> (take 6 (XoUser.buf ctrl_q_key)) !! 4%nat = Some 49 ∧
  XoUser.read_attr st' = false ∧
  XoUser.end_attr st' = true ∧
  heap (XoUser.memory st') = heap (XoUser.memory two_moves_state) ∧
  XoUser.table st' = XoUser.table two_moves_state ∧
  XoUser.move_record st' = XoUser.move_record two_moves_state ∧
  XoUser.move_count st' = XoUser.move_count two_moves_state ∧
  (∀ ticks : list XoUser.tick,
     XoUser.main_loop 4 16 66 ticks st' = Ok (XoUser.LoopExited, st')) ∧
  (∀ (t : XoUser.tick) (rest : list XoUser.tick),
     XoUser.end_attr two_moves_state = false ->
     0 <= XoUser.result (XoUser.sel t) ->
     XoUser.stdin_set (XoUser.sel t) = true ->
     XoUser.kb t = ctrl_q_key ->
     XoUser.main_loop 4 16 66 (t :: rest) two_moves_state =
     Ok (XoUser.LoopExited, st')).
Proof.
  apply (terminate_key 4 16 66 ctrl_q_key two_moves_state).
  - reflexivity.
  - reflexivity.
Defined.

Lemma device_ready_array_bounds_witness :
  (XoUser.device_ready 4 16 66 (Some (Pkg.Package 88 16)) two_moves_state =
     Fault TableOutOfBounds ↔ ¬ (0 <= 16 < 16)) ∧
  (XoUser.device_ready 4 16 66 (Some (Pkg.Package 88 16)) two_moves_state =
     Fault MoveRecordOutOfBounds ↔ 0 <= 16 < 16 ∧ ¬ (2 < 16)).
Proof.
  apply (device_ready_array_bounds 4 16 66 (Some (Pkg.Package 88 16))
           two_moves_state).
  - simpl. lia.
  - simpl. lia.
Defined.

(** The same defect, one step further: a game of nine moves whose record
    is refused leaves move_count at 9, and the eighth move of the next
    game is stored at move_record[16], past the end of the array. *)
Lemma stale_move_log_overruns_move_record :
  ∃ st0,
    XoUser.main_init 16 (Mem ∅ [true; false] 0 []) = Ok st0 ∧
    XoUser.main_loop 4 16 66
      (device_tick <$>
         [Pkg.Package 88 0; Pkg.Package 79 1; Pkg.Package 88 2;
          Pkg.Package 79 3; Pkg.Package 88 4; Pkg.Package 79 5;
          Pkg.Package 88 6; Pkg.Package 79 7; Pkg.Package 88 8;
          Pkg.Package (Pkg.PKG_SET_END 88) (-1);
          Pkg.Package 88 0; Pkg.Package 79 1; Pkg.Package 88 2;
          Pkg.Package 79 3; Pkg.Package 88 4; Pkg.Package 79 5;
          Pkg.Package 88 6; Pkg.Package 79 7]) st0 =
      Fault MoveRecordOutOfBounds.
Proof. eexists. vm_compute. split; reflexivity. Qed.

(** * Further properties of the code *)

(** ** kxo_pkg.h *)

(** X1. PKG_SET_END and PKG_CLR_END set and clear the end flag and leave
    the mark alone, whatever the status byte. *)
Theorem end_flag_set_and_clear (s : Z) :
  Pkg.PKG_GET_END (Pkg.PKG_SET_END s) = true ∧
  Pkg.PKG_GET_END (Pkg.PKG_CLR_END s) = false ∧
  Pkg.PKG_GET_AI (Pkg.PKG_SET_END s) = Pkg.PKG_GET_AI s ∧
  Pkg.PKG_GET_AI (Pkg.PKG_CLR_END s) = Pkg.PKG_GET_AI s ∧
  Pkg.PKG_CLR_END (Pkg.PKG_SET_END s) = Pkg.PKG_CLR_END s ∧
  Pkg.PKG_SET_END (Pkg.PKG_CLR_END s) = Pkg.PKG_SET_END s.
Proof.
  unfold Pkg.PKG_GET_END, Pkg.PKG_GET_AI, Pkg.PKG_SET_END, Pkg.PKG_CLR_END.
  rewrite !Z.lor_0_r, !Z.land_lor_distr_l, <- !Z.land_assoc.
  change (Z.land 0x7F 0x80) with 0. change (Z.land 0x80 0x80) with 0x80.
  change (Z.land 0x7F 0x7F) with 0x7F. change (Z.land 0x80 0x7F) with 0.
  rewrite !Z.land_0_r, !Z.lor_0_r, !Z.lor_0_l. repeat split; reflexivity.
Qed.


(** ** Blocks and their pointers under the heap operations *)

Lemma cell_values_frame h h' (cells : list cell) :
  (∀ a, a ∈ cells.*1 -> block_value (h' !! a) = block_value (h !! a)) ->
  cell_values h' cells = cell_values h cells.
Proof.
  unfold cell_values. induction cells as [| [a r] rest IH]; intros H;
    simpl; [reflexivity |].
  rewrite H by (simpl; left). f_equal. apply IH.
  intros b Hb. apply H. simpl. right. exact Hb.
Qed.

Lemma dseg_values h before first (cells : list cell) last after v :
  dseg h before first cells last after ->
  v ∈ cell_values h cells -> ∃ ints, h !! v = Some (BInts ints).
Proof.
  revert before first.
  induction cells as [| [a [mv w]] rest IH]; intros before first; simpl.
  - intros _ Hv. inversion Hv.
  - intros [-> (e & He & _ & _ & _ & Hval & Hrest)] Hv.
    unfold cell_values in Hv. simpl in Hv.
    apply elem_of_cons in Hv as [-> | Hv].
    + rewrite He. simpl. eauto.
    + eapply IH; eassumption.
Qed.

(** A segment only depends on its entries and on their move arrays. *)
Lemma dseg_frame_values h h' before first (cells : list cell) last after :
  (∀ a, a ∈ cells.*1 -> h' !! a = h !! a) ->
  (∀ v, v ∈ cell_values h cells -> h' !! v = h !! v) ->
  dseg h before first cells last after ->
  dseg h' before first cells last after.
Proof.
  revert before first.
  induction cells as [| [a [mv w]] rest IH]; intros before first Hc Hv;
    simpl; [tauto |].
  intros [-> (e & He & Hp & Hw & Hl & Hval & Hrest)].
  split; [reflexivity |]. exists e.
  rewrite Hc by (simpl; left).
  repeat split; try assumption.
  - rewrite Hv; [exact Hval |].
    unfold cell_values. simpl. rewrite He. simpl. left.
  - apply IH; [| | exact Hrest].
    + intros b Hb. apply Hc. simpl. right. exact Hb.
    + intros v Hin. apply Hv. unfold cell_values. simpl. right. exact Hin.
Qed.


(** ** list_del and q_free *)

Lemma q_free_loop_releases head :
  ∀ (cells : list cell) fuel m first last lh l,
    heap m !! head = Some (BHead lh) ->
    next lh = first ->
    heap m !! NULL = None ->
    dseg (heap m) head first cells last head ->
    NoDup (cells.*1) ->
    NoDup (cell_values (heap m) cells) ->
    (length cells ≤ fuel)%nat ->
    load_list m first = Ok l ->
    ∃ m' lh',
      q_free_loop fuel m head first (next l) = Ok m' ∧
      heap m' !! head = Some (BHead lh') ∧
      (∀ p, p ≠ head ->
            heap m' !! p =
            if decide (p ∈ cells.*1 ++ cell_values (heap m) cells)
            then None else heap m !! p) ∧
      alloc_ok m' = alloc_ok m ∧
      mallocs m' = mallocs m ∧
      trace m' = trace m.
Proof.
  induction cells as [| [a [mv w]] rest IH];
    intros fuel m first last lh l Hh Hnext Hnull Hseg Hnd Hndv Hfuel Hl.
  - destruct Hseg as [-> _]. exists m, lh.
    split; [destruct fuel; simpl; rewrite Z.eqb_refl; reflexivity |].
    split; [exact Hh |]. split; [| auto].
    intros p _. simpl. reflexivity.
  - destruct Hseg as [-> (e & He & Hprev & Hw & Hlen & Hval & Hrest)].
    destruct fuel as [| fuel]; [simpl in Hfuel; lia |].
    assert (a ≠ head) as Hah by (intros ->; rewrite Hh in He; discriminate).
    set (v := value e) in *.
    assert (v ≠ head) as Hvh by (intros E; rewrite E, Hh in Hval; discriminate).
    assert (v ≠ a) as Hva by (intros E; rewrite E, He in Hval; discriminate).
    assert (v ≠ NULL) as Hvn by (intros E; rewrite E, Hnull in Hval; discriminate).
    assert (a ≠ NULL) as Han by (intros E; rewrite E, Hnull in He; discriminate).
    assert (head ≠ NULL) as Hhn by (intros E; rewrite E, Hnull in Hh; discriminate).
    rewrite (load_list_elem _ _ _ He) in Hl. inversion Hl; subst l. clear Hl.
    simpl. rewrite (proj2 (Z.eqb_neq _ _) Hah).
    unfold list_del. rewrite (load_list_elem _ _ _ He). simpl.
    rewrite Hprev.
    apply NoDup_cons in Hnd as [Hna Hnd'].
    assert (cell_values (heap m) ((a, (mv, w)) :: rest) =
            v :: cell_values (heap m) rest) as Hcv.
    { unfold cell_values. simpl. rewrite He. reflexivity. }
    rewrite Hcv in Hndv. apply NoDup_cons in Hndv as [Hnv Hndv'].
    destruct rest as [| [a2 [mv2 w2]] rest'].
    + destruct Hrest as [Hnx _]. rewrite Hnx.
      rewrite (store_list_head _ _ _ _ Hh). simpl.
      erewrite store_list_head by (simpl; apply lookup_insert_eq).
      simpl. unfold load_elem. simpl.
      rewrite lookup_insert_ne by congruence.
      rewrite lookup_insert_ne by congruence. rewrite He. simpl.
      fold v. rewrite (eqb_NULL_false _ Hvn).
      unfold free. rewrite (eqb_NULL_false _ Hvn), (eqb_NULL_false _ Han).
      unfold set_heap, load_list. simpl.
      rewrite lookup_delete_ne by congruence.
      rewrite lookup_delete_ne by congruence.
      rewrite lookup_insert_eq. simpl.
      destruct fuel; simpl; rewrite Z.eqb_refl;
        (eexists; eexists; split; [reflexivity |]; simpl;
         split;
         [rewrite !lookup_delete_ne by congruence; apply lookup_insert_eq |];
         split; [| auto];
         intros p Hp; rewrite Hcv; simpl;
         destruct (decide (p = a)) as [-> | Hpa];
         [rewrite lookup_delete_eq, decide_True by (left); reflexivity |];
         rewrite lookup_delete_ne by congruence;
         destruct (decide (p = v)) as [-> | Hpv];
         [rewrite lookup_delete_eq, decide_True
            by (right; left); reflexivity |];
         rewrite lookup_delete_ne by congruence;
         rewrite !lookup_insert_ne by congruence;
         rewrite decide_False; [reflexivity |];
         intros Hin; apply elem_of_cons in Hin as [-> | Hin];
         [congruence |];
         apply elem_of_cons in Hin as [-> | Hin]; [congruence |];
         inversion Hin).
    + destruct Hrest
        as [Hnx (e2 & He2 & Hp2 & Hw2 & Hl2 & Hval2 & Hrest')].
      rewrite Hnx.
      assert (a2 ≠ head) as Ha2h
        by (intros E; rewrite E, Hh in He2; discriminate).
      assert (a2 ≠ a) as Ha2a by (intros E; apply Hna; rewrite E; simpl; left).
      assert (a2 ≠ v) as Ha2v
        by (intros E; rewrite E, Hval in He2; discriminate).
      rewrite (store_list_elem _ _ _ _ He2). simpl.
      erewrite store_list_head
        by (simpl; rewrite lookup_insert_ne by congruence; exact Hh).
      simpl. unfold load_elem. simpl.
      rewrite !lookup_insert_ne by congruence. rewrite He. simpl.
      fold v. rewrite (eqb_NULL_false _ Hvn).
      unfold free. rewrite (eqb_NULL_false _ Hvn), (eqb_NULL_false _ Han).
      unfold set_heap. simpl.
      match goal with
      | |- context [load_list ?x a2] => set (m3 := x)
      end.
      assert (∀ p, p ≠ a -> p ≠ v -> p ≠ head -> p ≠ a2 ->
                   heap m3 !! p = heap m !! p) as Hother.
      { intros p H1 H2 H3 H4. unfold m3. simpl.
        rewrite !lookup_delete_ne by congruence.
        rewrite !lookup_insert_ne by congruence. reflexivity. }
      assert (heap m3 !! a2 =
              Some (BElem (set_list (set_prev head (list_ e2)) e2))) as He2'.
      { unfold m3. simpl. rewrite !lookup_delete_ne by congruence.
        rewrite lookup_insert_ne by congruence. apply lookup_insert_eq. }
      assert (heap m3 !! head = Some (BHead (set_next a2 lh))) as Hh3.
      { unfold m3. simpl. rewrite !lookup_delete_ne by congruence.
        apply lookup_insert_eq. }
      rewrite (load_list_elem _ _ _ He2'). simpl.
      assert (cell_values (heap m3) ((a2, (mv2, w2)) :: rest') =
              cell_values (heap m) ((a2, (mv2, w2)) :: rest')) as Hcv3.
      { apply cell_values_frame. intros b Hb. simpl in Hb.
        apply elem_of_cons in Hb as [-> | Hb].
        - rewrite He2', He2. reflexivity.
        - rewrite Hother; [reflexivity | | | |].
          + intros ->. apply Hna. simpl. right. exact Hb.
          + intros ->.
            destruct (dseg_allocated _ _ _ _ _ _ _ Hrest' Hb) as [eb Heb].
            rewrite Hval in Heb. discriminate.
          + intros ->.
            destruct (dseg_allocated _ _ _ _ _ _ _ Hrest' Hb) as [eb Heb].
            rewrite Hh in Heb. discriminate.
          + intros ->. simpl in Hnd'. apply NoDup_cons in Hnd' as [Hx _].
            apply Hx, Hb. }
      destruct (IH fuel m3 a2 last (set_next a2 lh)
                  (set_prev head (list_ e2)))
        as (m' & lh' & Hrun & Hh' & Hlook & Ha' & Hm' & Ht').
      * exact Hh3.
      * reflexivity.
      * unfold m3. simpl. rewrite !lookup_delete_ne by congruence.
        rewrite !lookup_insert_ne by congruence. exact Hnull.
      * simpl. split; [reflexivity |]. eexists. split; [exact He2' |].
        simpl. repeat split; try assumption.
        { assert (value e2 ∈ cell_values (heap m) ((a2, (mv2, w2)) :: rest'))
            as Hin by (unfold cell_values; simpl; rewrite He2; simpl; left).
          rewrite Hother; [exact Hval2 | | | |].
          - intros E. rewrite E, He in Hval2. discriminate.
          - intros E. apply Hnv. rewrite <- E. exact Hin.
          - intros E. rewrite E, Hh in Hval2. discriminate.
          - intros E. rewrite E, He2 in Hval2. discriminate. }
        eapply dseg_frame_values; [| | exact Hrest'].
        { intros b Hb.
          destruct (dseg_allocated _ _ _ _ _ _ _ Hrest' Hb) as [eb Heb].
          apply Hother.
          - intros ->. apply Hna. simpl. right. exact Hb.
          - intros ->. rewrite Hval in Heb. discriminate.
          - intros ->. rewrite Hh in Heb. discriminate.
          - intros ->. simpl in Hnd'. apply NoDup_cons in Hnd' as [Hx _].
            apply Hx, Hb. }
        { intros u Hu.
          destruct (dseg_values _ _ _ _ _ _ _ Hrest' Hu) as [ints Hints].
          apply Hother.
          - intros ->. rewrite He in Hints. discriminate.
          - intros ->. apply Hnv. unfold cell_values. simpl. right.
            exact Hu.
          - intros ->. rewrite Hh in Hints. discriminate.
          - intros ->. rewrite He2 in Hints. discriminate. }
      * exact Hnd'.
      * rewrite Hcv3. exact Hndv'.
      * simpl in Hfuel |- *. lia.
      * apply (load_list_elem _ _ _ He2').
      * simpl in Hrun. rewrite Hrun. exists m', lh'.
        split; [reflexivity |]. split; [exact Hh' |].
        split; [| rewrite Ha', Hm', Ht'; unfold m3; simpl; auto].
        intros p Hp. rewrite (Hlook p Hp), Hcv3, Hcv.
        set (R := ((a2, (mv2, w2)) :: rest').*1 ++
                  cell_values (heap m) ((a2, (mv2, w2)) :: rest')).
        assert (∀ q, q ∈ ((a, (mv, w)) :: (a2, (mv2, w2)) :: rest').*1 ++
                         v :: cell_values (heap m) ((a2, (mv2, w2)) :: rest')
                     ↔ q = a ∨ q = v ∨ q ∈ R) as Hmem.
        { intros q. unfold R. simpl.
          rewrite !elem_of_cons, !elem_of_app, !elem_of_cons.
          unfold cell_values. simpl. rewrite !elem_of_cons. tauto. }
        destruct (decide (p ∈ R)) as [HR | HR].
        { rewrite decide_True; [reflexivity |]. apply Hmem. auto. }
        destruct (decide (p = a)) as [-> | Hpa].
        { rewrite decide_True by (apply Hmem; auto).
          unfold m3. simpl. apply lookup_delete_eq. }
        destruct (decide (p = v)) as [-> | Hpv].
        { rewrite decide_True by (apply Hmem; auto).
          unfold m3. simpl. rewrite lookup_delete_ne by congruence.
          apply lookup_delete_eq. }
        rewrite decide_False by (rewrite Hmem; tauto).
        apply Hother; try assumption.
        intros ->. apply HR. unfold R. simpl. left.
Qed.


Lemma queue_blocks_allocated m head (cells : list cell) p :
  is_queue m head cells ->
  p ∈ queue_blocks (heap m) head cells -> is_Some (heap m !! p).
Proof.
  intros (lh & Hh & Hseg & _ & _) Hp. unfold queue_blocks in Hp.
  apply elem_of_cons in Hp as [-> | Hp]; [rewrite Hh; eauto |].
  apply elem_of_app in Hp as [Hp | Hp].
  - destruct (dseg_allocated _ _ _ _ _ _ _ Hseg Hp) as [e He].
    rewrite He. eauto.
  - destruct (dseg_values _ _ _ _ _ _ _ Hseg Hp) as [a Ha].
    rewrite Ha. eauto.
Qed.

Lemma queue_blocks_NoDup m head (cells : list cell) :
  is_queue m head cells ->
  NoDup (cell_values (heap m) cells) ->
  NoDup (queue_blocks (heap m) head cells).
Proof.
  intros Hq Hndv. pose proof (is_queue_head_not_cell _ _ _ Hq) as Hhc.
  destruct Hq as (lh & Hh & Hseg & Hnd & _). unfold queue_blocks.
  apply NoDup_cons. split.
  - intros Hin. apply elem_of_app in Hin as [Hin | Hin]; [tauto |].
    destruct (dseg_values _ _ _ _ _ _ _ Hseg Hin) as [a Ha].
    rewrite Hh in Ha. discriminate.
  - apply NoDup_app. split; [exact Hnd |]. split; [| exact Hndv].
    intros a Ha Hv.
    destruct (dseg_allocated _ _ _ _ _ _ _ Hseg Ha) as [e He].
    destruct (dseg_values _ _ _ _ _ _ _ Hseg Hv) as [ints Hi].
    rewrite He in Hi. discriminate.
Qed.

(** What q_free releases. *)
Lemma q_free_frees_blocks (m : mem) (head : Z) (cells : list cell) :
  is_queue m head cells ->
  NoDup (cell_values (heap m) cells) ->
  ∃ m', q_free head m = Ok m' ∧
        (∀ p, heap m' !! p =
              if decide (p ∈ queue_blocks (heap m) head cells)
              then None else heap m !! p) ∧
        (size (heap m) = size (heap m') + 1 + 2 * length cells)%nat ∧
        alloc_ok m' = alloc_ok m ∧
        mallocs m' = mallocs m ∧
        trace m' = trace m.
Proof.
  intros Hq Hndv.
  pose proof (is_queue_head_not_NULL _ _ _ Hq) as Hhn.
  pose proof (queue_blocks_NoDup _ _ _ Hq Hndv) as Hbnd.
  pose proof (fun p => queue_blocks_allocated m head cells p Hq) as Hball.
  destruct Hq as (lh & Hh & Hseg & Hnd & Hnull).
  pose proof (load_list_head _ _ _ Hh) as Hlh.
  destruct (dseg_first_loadable _ _ _ _ _ _ _ Hlh Hseg) as [l Hl].
  destruct (q_free_loop_releases head cells (size (heap m)) m (next lh)
              (prev lh) lh l)
    as (m1 & lh1 & Hrun & Hh1 & Hlook & Ha & Hm & Ht); try assumption;
    try reflexivity.
  { rewrite <- (length_fmap fst cells).
    apply cells_bounded_by_heap; [exact Hnd |].
    intros a Hin. destruct (dseg_allocated _ _ _ _ _ _ _ Hseg Hin) as [e He].
    rewrite He. eauto. }
  unfold q_free. rewrite (eqb_NULL_false _ Hhn), Hlh. simpl.
  rewrite Hl. simpl. rewrite Hrun. simpl.
  unfold free. rewrite (eqb_NULL_false _ Hhn).
  eexists. split; [reflexivity |]. simpl.
  assert (∀ p, delete head (heap m1) !! p =
               if decide (p ∈ queue_blocks (heap m) head cells)
               then None else heap m !! p) as Hfinal.
  { intros p. unfold queue_blocks.
    destruct (decide (p = head)) as [-> | Hp].
    - rewrite lookup_delete_eq, decide_True by left. reflexivity.
    - rewrite lookup_delete_ne by congruence. rewrite (Hlook p Hp).
      destruct (decide (p ∈ cells.*1 ++ cell_values (heap m) cells)).
      + rewrite decide_True by (right; assumption). reflexivity.
      + rewrite decide_False; [reflexivity |].
        intros Hin. apply elem_of_cons in Hin as [-> | Hin]; tauto. }
  split; [exact Hfinal |]. split; [| auto].
  set (B := list_to_set (queue_blocks (heap m) head cells) : gset Z).
  assert (dom (delete head (heap m1)) = dom (heap m) ∖ B) as Hdom.
  { apply set_eq. intros p.
    rewrite elem_of_difference, !elem_of_dom, Hfinal. unfold B.
    rewrite elem_of_list_to_set.
    destruct (decide (p ∈ queue_blocks (heap m) head cells)).
    - split; [intros [x Hx]; discriminate | tauto].
    - tauto. }
  assert (B ⊆ dom (heap m)) as Hsub.
  { intros p Hp. unfold B in Hp. apply elem_of_list_to_set in Hp.
    apply elem_of_dom, Hball, Hp. }
  rewrite <- (size_dom (D := gset Z) (heap m)).
  rewrite <- (size_dom (D := gset Z) (delete head (heap m1))).
  rewrite Hdom, size_difference by exact Hsub.
  assert (size B = (1 + 2 * length cells)%nat) as HB.
  { unfold B. rewrite size_list_to_set by exact Hbnd.
    unfold queue_blocks, cell_values. simpl.
    rewrite length_app, !length_fmap. lia. }
  pose proof (subseteq_size _ _ Hsub). lia.
Qed.


(** ** What the list operations touch *)

Lemma store_list_footprint m p f m' :
  store_list m p f = Ok m' ->
  (∀ q, q ≠ p -> heap m' !! q = heap m !! q) ∧
  (∀ q, block_value (heap m' !! q) = block_value (heap m !! q)) ∧
  alloc_ok m' = alloc_ok m ∧ mallocs m' = mallocs m ∧ trace m' = trace m.
Proof.
  unfold store_list.
  destruct (heap m !! p) as [[lh | e | a] |] eqn:Hp; try discriminate;
    intros E; inversion E; subst m'; simpl;
    (split; [intros q Hq; apply lookup_insert_ne; congruence |]);
    (split; [| auto]); intros q;
    (destruct (decide (q = p)) as [-> | Hq];
     [rewrite lookup_insert_eq, Hp; reflexivity
     | rewrite lookup_insert_ne by congruence; reflexivity]).
Qed.

Lemma list_add_footprint node head m m' :
  list_add node head m = Ok m' ->
  ∃ hl, load_list m head = Ok hl ∧
        (∀ q, q ≠ node -> q ≠ head -> q ≠ next hl ->
              heap m' !! q = heap m !! q) ∧
        (∀ q, block_value (heap m' !! q) = block_value (heap m !! q)) ∧
        alloc_ok m' = alloc_ok m ∧ mallocs m' = mallocs m ∧
        trace m' = trace m.
Proof.
  unfold list_add.
  destruct (load_list m head) as [hl | |] eqn:Hhl; try discriminate. simpl.
  destruct (store_list m (next hl) (set_prev node)) as [m1 | |] eqn:H1;
    try discriminate; simpl.
  destruct (store_list m1 node (set_next (next hl))) as [m2 | |] eqn:H2;
    try discriminate; simpl.
  destruct (store_list m2 node (set_prev head)) as [m3 | |] eqn:H3;
    try discriminate; simpl.
  intros H4.
  apply store_list_footprint in H1 as (A1 & B1 & C1 & D1 & E1).
  apply store_list_footprint in H2 as (A2 & B2 & C2 & D2 & E2).
  apply store_list_footprint in H3 as (A3 & B3 & C3 & D3 & E3).
  apply store_list_footprint in H4 as (A4 & B4 & C4 & D4 & E4).
  exists hl. split; [reflexivity |].
  split; [| split; [| repeat split; congruence]].
  - intros q Hn Hh Hx. rewrite A4, A3, A2, A1 by congruence. reflexivity.
  - intros q. rewrite B4, B3, B2, B1. reflexivity.
Qed.

Lemma q_insert_head_succeeds_blocks head (cells : list cell) move len ai m :
  is_queue m head cells ->
  next_malloc_ok m = true ->
  second_malloc_ok m = true ->
  0 <= len <= Z.of_nat (length move) ->
  ∃ n v m',
    q_insert_head head move len ai m = Ok (true, m') ∧
    is_queue m' head ((n, (take (Z.to_nat len) move, ai)) :: cells) ∧
    heap m !! n = None ∧ heap m !! v = None ∧ n ≠ v ∧
    block_value (heap m' !! n) = v ∧
    (∀ q, q ≠ n -> block_value (heap m' !! q) = block_value (heap m !! q)) ∧
    (∀ q, q ≠ n -> q ≠ v -> q ≠ head -> q ∉ cells.*1 ->
          heap m' !! q = heap m !! q) ∧
    alloc_ok m' = tail (tail (alloc_ok m)) ∧
    mallocs m' = S (S (mallocs m)) ∧
    trace m' = trace m.
Proof.
  intros Hq Hok1 Hok2 Hlen.
  pose proof (is_queue_head_not_NULL _ _ _ Hq) as Hh.
  unfold q_insert_head, next_malloc_ok, second_malloc_ok, malloc_ints,
    malloc in *.
  rewrite (eqb_NULL_false _ Hh).
  destruct (alloc_ok m) as [| [|] [| [|] o]] eqn:Ho; try discriminate.
  pose proof (fresh_addr_not_NULL (heap m)) as Hn.
  pose proof (fresh_addr_None (heap m)) as Hnone.
  set (n := fresh_addr (heap m)) in *.
  rewrite (eqb_NULL_false _ Hn).
  replace (len <? 0) with false by (symmetry; apply Z.ltb_ge; lia).
  simpl.
  set (h1 := <[n := BElem (Element NULL 0 0 (ListHead NULL NULL))]> (heap m)).
  pose proof (fresh_addr_not_NULL h1) as Hv.
  pose proof (fresh_addr_None h1) as Hvnone.
  set (v := fresh_addr h1) in *.
  assert (v ≠ n) as Hvn.
  { intros E. rewrite E in Hvnone. unfold h1 in Hvnone.
    rewrite lookup_insert_eq in Hvnone. discriminate. }
  assert (heap m !! v = None) as Hvm.
  { unfold h1 in Hvnone. rewrite lookup_insert_ne in Hvnone by congruence.
    exact Hvnone. }
  clearbody v. clear Hvnone. subst h1.
  unfold store_elem, load_elem, memcpy_ints, load_ints. simpl.
  heap_lookups. rewrite (eqb_NULL_false _ Hv). heap_lookups.
  replace (Z.of_nat (length move) <? len) with false
    by (symmetry; apply Z.ltb_ge; lia).
  rewrite length_replicate, Z2Nat.id by lia.
  replace (len <? len) with false by (symmetry; apply Z.ltb_ge; lia).
  simpl. rewrite drop_replicate, Nat.sub_diag, app_nil_r.
  replace (len <? 0) with false by (symmetry; apply Z.ltb_ge; lia).
  unfold set_heap. simpl.
  match goal with
  | |- context [list_add n head ?x] => set (m6 := x)
  end.
  assert (∀ q, q ≠ n -> q ≠ v -> heap m6 !! q = heap m !! q) as Hm6.
  { intros q H1 H2. unfold m6. simpl.
    rewrite !lookup_insert_ne by congruence. reflexivity. }
  assert (heap m6 !! n =
          Some (BElem (Element v len ai (ListHead NULL NULL)))) as Hn6.
  { unfold m6. simpl. rewrite lookup_insert_ne by congruence.
    apply lookup_insert_eq. }
  assert (heap m6 !! v = Some (BInts (take (Z.to_nat len) move))) as Hv6.
  { unfold m6. simpl. apply lookup_insert_eq. }
  assert (∀ a, a ∈ cells.*1 -> a ≠ n ∧ a ≠ v) as Hcells.
  { intros a Ha. destruct Hq as (lh & _ & Hseg & _).
    destruct (dseg_allocated _ _ _ _ _ _ _ Hseg Ha) as [ea Hea].
    split; intros ->; congruence. }
  assert (is_queue m6 head cells) as Hq6.
  { destruct Hq as (lh & Hhd & Hseg & Hnd & Hnull).
    exists lh.
    assert (head ≠ n) by (intros ->; rewrite Hnone in Hhd; discriminate).
    assert (head ≠ v) by (intros ->; rewrite Hvm in Hhd; discriminate).
    split; [rewrite Hm6 by congruence; exact Hhd |].
    split; [| split; [exact Hnd |]].
    - eapply dseg_frame; [| | exact Hseg].
      + intros a Ha. destruct (Hcells a Ha). apply Hm6; assumption.
      + intros p ints Hp. rewrite Hm6; [exact Hp | |]; intros ->; congruence.
    - rewrite Hm6 by congruence. exact Hnull. }
  destruct (list_add_queue m6 head cells n
              (Element v len ai (ListHead NULL NULL))
              (take (Z.to_nat len) move) Hq6)
    as (m' & Hadd & Hq' & Ha & Hm & Ht).
  - exact Hn6.
  - intros Hin. destruct (Hcells n Hin). congruence.
  - exact Hv6.
  - simpl. rewrite length_take. lia.
  - destruct (list_add_footprint _ _ _ _ Hadd)
      as (hl & Hhl & Hfoot & Hbv & _).
    exists n, v, m'. rewrite Hadd. simpl.
    split; [reflexivity |]. split; [exact Hq' |].
    split; [exact Hnone |]. split; [exact Hvm |].
    split; [congruence |].
    split; [rewrite Hbv, Hn6; reflexivity |].
    split; [| split; [| rewrite Ha, Hm, Ht; unfold m6; simpl; auto]].
    + intros q Hqn. rewrite Hbv.
      destruct (decide (q = v)) as [-> | Hqv].
      * rewrite Hv6, Hvm. reflexivity.
      * rewrite Hm6 by assumption. reflexivity.
    + intros q Hqn Hqv Hqh Hqc. rewrite Hfoot, Hm6; try assumption;
        [reflexivity |].
      destruct Hq6 as (lh & Hhd & Hseg & _).
      rewrite (load_list_head _ _ _ Hhd) in Hhl. inversion Hhl; subst hl.
      destruct cells as [| [a r] rest]; simpl in Hseg.
      * destruct Hseg as [-> _]. exact Hqh.
      * destruct r as [mv w]. destruct Hseg as [-> _].
        intros ->. apply Hqc. simpl. left.
Qed.


(** ** A queue on top of a heap: built, extended, released *)

(** What q_new builds. *)
Lemma q_new_over (m : mem) :
  heap m !! NULL = None ->
  (next_malloc_ok m = true ->
   ∃ p m', q_new m = Ok (p, m') ∧
           p ≠ NULL ∧
           heap m !! p = None ∧
           queue_over (heap m) m' p [] ∧
           q_records m' p = Ok []) ∧
  (next_malloc_ok m = false ->
   ∃ m', q_new m = Ok (NULL, m') ∧ heap m' = heap m).
Proof.
  intros Hnull. split; intros Hok.
  - destruct (q_new_succeeds m Hok Hnull) as (m' & Hrun & Hq & _).
    pose proof (fresh_addr_not_NULL (heap m)) as Hp.
    pose proof (fresh_addr_None (heap m)) as Hnone.
    set (p := fresh_addr (heap m)) in *.
    exists p, m'. split; [exact Hrun |]. split; [exact Hp |].
    split; [exact Hnone |].
    split; [| apply (q_records_queue _ _ _ Hq)].
    split; [exact Hq |]. split; [constructor |].
    unfold queue_blocks, cell_values. simpl.
    split.
    + intros q Hq'. apply list_elem_of_singleton in Hq'. subst q.
      exact Hnone.
    + intros q Hq'. rewrite list_elem_of_singleton in Hq'.
      revert Hrun. unfold q_new, malloc, next_malloc_ok in *.
      destruct (alloc_ok m) as [| [|] o]; try discriminate.
      fold p. rewrite (eqb_NULL_false _ Hp).
      unfold INIT_LIST_HEAD, store_list. simpl.
      rewrite lookup_insert_eq. simpl. rewrite lookup_insert_eq. simpl.
      intros E. inversion E; subst m'. simpl.
      rewrite !lookup_insert_ne by congruence. reflexivity.
  - rewrite (q_new_fails m Hok). eauto.
Qed.

(** What q_insert_head does to a queue on top of a heap, in every case. *)
Lemma q_insert_head_over_outcome
    (h0 : gmap Z block) (m : mem) (head : Z) (cells : list cell)
    (move : list Z) (len ai : Z) :
  queue_over h0 m head cells ->
  len <= Z.of_nat (length move) ->
  ∃ b m' cells',
    q_insert_head head move len ai m = Ok (b, m') ∧
    b = next_malloc_ok m && second_malloc_ok m && (0 <=? len) ∧
    queue_over h0 m' head cells' ∧
    cells'.*2 =
      (if b then [(take (Z.to_nat len) move, ai)] else []) ++ cells.*2 ∧
    (if b then ∃ n, cells' = (n, (take (Z.to_nat len) move, ai)) :: cells
     else cells' = cells ∧ heap m' = heap m) ∧
    trace m' = trace m ++ (if b then [] else [alloc_msg]).
Proof.
  intros (Hq & Hndv & Hnew & Hold) Hlen.
  pose proof (is_queue_head_not_NULL _ _ _ Hq) as Hh.
  assert (∀ m', heap m' = heap m -> queue_over h0 m' head cells) as Hsame.
  { intros m' E. unfold queue_over, is_queue. rewrite E.
    repeat split; assumption. }
  destruct (next_malloc_ok m) eqn:H1; simpl.
  - destruct (second_malloc_ok m) eqn:H2; simpl.
    + destruct (Z_lt_dec len 0) as [Hneg | Hpos].
      * rewrite q_insert_head_array_fails by auto.
        replace (0 <=? len) with false by (symmetry; apply Z.leb_gt; lia).
        eexists false, _, cells. split; [reflexivity |].
        split; [reflexivity |]. split; [apply Hsame; reflexivity |].
        split; [reflexivity |]. split; [split |]; reflexivity.
      * replace (0 <=? len) with true by (symmetry; apply Z.leb_le; lia).
        destruct (q_insert_head_succeeds_blocks head cells move len ai m)
          as (n & v & m' & Hrun & Hq' & Hn & Hv & Hnv & Hbn & Hbv & Hfoot &
              _ & _ & Htr);
          [assumption | assumption | assumption | lia |].
        exists true, m', ((n, (take (Z.to_nat len) move, ai)) :: cells).
        split; [exact Hrun |]. split; [reflexivity |].
        split;
          [| split; [reflexivity |];
             split; [eauto | rewrite Htr, app_nil_r; reflexivity]].
        assert (∀ a, a ∈ cells.*1 -> a ≠ n ∧ a ≠ v) as Hcells.
        { intros a Ha. destruct Hq as (lh & _ & Hseg & _).
          destruct (dseg_allocated _ _ _ _ _ _ _ Hseg Ha) as [ea Hea].
          split; intros ->; congruence. }
        assert (cell_values (heap m')
                  ((n, (take (Z.to_nat len) move, ai)) :: cells) =
                v :: cell_values (heap m) cells) as Hcv.
        { unfold cell_values at 1. simpl. rewrite Hbn. f_equal.
          apply cell_values_frame. intros a Ha. apply Hbv.
          apply (Hcells a Ha). }
        assert (∀ u, u ∈ queue_blocks (heap m) head cells ->
                     u ≠ n ∧ u ≠ v) as Hblocks.
        { intros u Hu.
          destruct (queue_blocks_allocated m head cells u Hq Hu) as [x Hx].
          split; intros ->; congruence. }
        assert (∀ q, q ∈ queue_blocks (heap m') head
                           ((n, (take (Z.to_nat len) move, ai)) :: cells)
                     ↔ q = n ∨ q = v ∨
                       q ∈ queue_blocks (heap m) head cells) as Hmem.
        { intros q. unfold queue_blocks. rewrite Hcv. simpl.
          rewrite !elem_of_cons, !elem_of_app, !elem_of_cons. tauto. }
        split; [exact Hq' |]. split; [| split].
        -- rewrite Hcv. apply NoDup_cons. split; [| exact Hndv].
           intros Hin.
           destruct Hq as (lh & _ & Hseg & _).
           destruct (dseg_values _ _ _ _ _ _ _ Hseg Hin) as [ints Hi].
           congruence.
        -- intros q Hin. apply Hmem in Hin as [-> | [-> | Hin]].
           ++ rewrite <- Hold; [exact Hn |]. intros Hin.
              destruct (Hblocks _ Hin). congruence.
           ++ rewrite <- Hold; [exact Hv |]. intros Hin.
              destruct (Hblocks _ Hin). congruence.
           ++ apply Hnew, Hin.
        -- intros q Hout. rewrite Hmem in Hout.
           assert (q ∉ queue_blocks (heap m) head cells) as Hout' by tauto.
           rewrite <- (Hold q Hout'). apply Hfoot; try tauto.
           ++ intros ->. apply Hout'. unfold queue_blocks. left.
           ++ intros Hin. apply Hout'. unfold queue_blocks. right.
              apply elem_of_app. left. exact Hin.
    + rewrite q_insert_head_array_fails by auto.
      eexists false, _, cells. split; [reflexivity |].
      split; [reflexivity |]. split; [apply Hsame; reflexivity |].
      split; [reflexivity |]. split; [split |]; reflexivity.
  - rewrite q_insert_head_node_fails by auto.
    eexists false, _, cells. split; [reflexivity |].
    split; [reflexivity |]. split; [apply Hsame; reflexivity |].
    split; [reflexivity |]. split; [split |]; reflexivity.
Qed.

(** q_free on a queue on top of a heap. *)
Lemma q_free_over
    (h0 : gmap Z block) (m : mem) (head : Z) (cells : list cell) :
  queue_over h0 m head cells ->
  ∃ m', q_free head m = Ok m' ∧ heap m' = h0 ∧
        alloc_ok m' = alloc_ok m ∧ mallocs m' = mallocs m ∧
        trace m' = trace m.
Proof.
  intros (Hq & Hndv & Hnew & Hold).
  destruct (q_free_frees_blocks m head cells Hq Hndv)
    as (m' & Hrun & Hlook & _ & Hrest).
  exists m'. split; [exact Hrun |]. split; [| exact Hrest].
  apply map_eq. intros p.
  rewrite Hlook.
  destruct (decide (p ∈ queue_blocks (heap m) head cells)) as [Hin | Hout].
  - symmetry. apply Hnew, Hin.
  - apply Hold, Hout.
Qed.


Lemma empty_queue_over o : queue_over ∅ (empty_queue o) 1 [].
Proof.
  split; [apply empty_queue_is_queue |]. split; [constructor |].
  unfold queue_blocks, cell_values. simpl. split.
  - intros p _. apply lookup_empty.
  - intros p Hp. rewrite list_elem_of_singleton in Hp.
    rewrite lookup_empty. apply lookup_singleton_ne. congruence.
Qed.

(** X5. When the allocation succeeds, q_new returns a fresh non-null
    header, which is a well-formed empty queue on top of the heap it
    started from; when it fails, q_new returns NULL and the heap is what
    it was. *)
Theorem q_new_builds_empty_queue (m : mem) :
  heap m !! NULL = None ->
  (next_malloc_ok m = true ->
   ∃ p m', q_new m = Ok (p, m') ∧
           p ≠ NULL ∧
           heap m !! p = None ∧
           queue_over (heap m) m' p [] ∧
           q_records m' p = Ok []) ∧
  (next_malloc_ok m = false ->
   ∃ m', q_new m = Ok (NULL, m') ∧ heap m' = heap m).
Proof. apply q_new_over. Qed.

(** X3. On a well-formed queue whose entries own distinct move arrays,
    q_free ends normally and releases exactly the header, every entry and
    every move array: these addresses are free afterwards, every other
    block is what it was, and the heap has shrunk by one block for the
    header and two for each entry. Nothing is printed or allocated. *)
Theorem q_free_releases_queue (m : mem) (head : Z) (cells : list cell) :
  is_queue m head cells ->
  NoDup (cell_values (heap m) cells) ->
  ∃ m', q_free head m = Ok m' ∧
        (∀ p, heap m' !! p =
              if decide (p ∈ queue_blocks (heap m) head cells)
              then None else heap m !! p) ∧
        (size (heap m) = size (heap m') + 1 + 2 * length cells)%nat ∧
        alloc_ok m' = alloc_ok m ∧
        mallocs m' = mallocs m ∧
        trace m' = trace m.
Proof. apply q_free_frees_blocks. Qed.

(** X4. q_insert_head keeps a queue on top of its heap, whatever the
    allocator answers, and never faults when [len] is within the caller's
    array: it returns true exactly when both allocations succeed (a
    negative [len] makes the second fail); then the queue has one more
    entry at the front, holding the first [len] moves of the array and the
    mark, with a move array of its own, and nothing is printed. When it
    returns false the queue and the heap are what they were and one line
    is printed. *)
Theorem q_insert_head_keeps_queue_over
    (h0 : gmap Z block) (m : mem) (head : Z) (cells : list cell)
    (move : list Z) (len ai : Z) :
  queue_over h0 m head cells ->
  len <= Z.of_nat (length move) ->
  ∃ b m' cells',
    q_insert_head head move len ai m = Ok (b, m') ∧
    b = next_malloc_ok m && second_malloc_ok m && (0 <=? len) ∧
    queue_over h0 m' head cells' ∧
    cells'.*2 =
      (if b then [(take (Z.to_nat len) move, ai)] else []) ++ cells.*2 ∧
    (if b then ∃ n, cells' = (n, (take (Z.to_nat len) move, ai)) :: cells
     else cells' = cells ∧ heap m' = heap m) ∧
    trace m' = trace m ++ (if b then [] else [alloc_msg]).
Proof. apply q_insert_head_over_outcome. Qed.


(** X7. q_insert_head trusts [len]: when both allocations succeed and
    [len] is larger than the caller's array, memcpy reads past the end of
    that array. *)
Theorem q_insert_head_reads_past_short_array
    (m : mem) (head : Z) (cells : list cell) (move : list Z) (len ai : Z) :
  is_queue m head cells ->
  next_malloc_ok m = true ->
  second_malloc_ok m = true ->
  Z.of_nat (length move) < len ->
  q_insert_head head move len ai m = Fault SourceOutOfBounds.
Proof.
  intros Hq Hok1 Hok2 Hlen.
  pose proof (is_queue_head_not_NULL _ _ _ Hq) as Hh.
  unfold q_insert_head, next_malloc_ok, second_malloc_ok, malloc_ints,
    malloc in *.
  rewrite (eqb_NULL_false _ Hh).
  destruct (alloc_ok m) as [| [|] [| [|] o]] eqn:Ho; try discriminate.
  pose proof (fresh_addr_not_NULL (heap m)) as Hn.
  set (n := fresh_addr (heap m)) in *.
  rewrite (eqb_NULL_false _ Hn).
  replace (len <? 0) with false by (symmetry; apply Z.ltb_ge; lia).
  simpl.
  set (h1 := <[n := BElem (Element NULL 0 0 (ListHead NULL NULL))]> (heap m)).
  pose proof (fresh_addr_not_NULL h1) as Hv.
  pose proof (fresh_addr_None h1) as Hvnone.
  set (v := fresh_addr h1) in *.
  assert (v ≠ n) as Hvn.
  { intros E. rewrite E in Hvnone. unfold h1 in Hvnone.
    rewrite lookup_insert_eq in Hvnone. discriminate. }
  clearbody v. clear Hvnone. subst h1.
  unfold store_elem, load_elem, memcpy_ints, load_ints. simpl.
  heap_lookups. rewrite (eqb_NULL_false _ Hv). heap_lookups.
  replace (Z.of_nat (length move) <? len) with true
    by (symmetry; apply Z.ltb_lt; lia).
  rewrite orb_true_r. reflexivity.
Qed.

(** ** list_del *)

Lemma list_del_front_queue m head a r (cells : list cell) :
  is_queue m head ((a, r) :: cells) ->
  ∃ m', list_del a m = Ok m' ∧
        is_queue m' head cells ∧
        heap m' !! a = heap m !! a ∧
        (∀ q, block_value (heap m' !! q) = block_value (heap m !! q)) ∧
        (∀ q ints, heap m !! q = Some (BInts ints) ->
                   heap m' !! q = Some (BInts ints)) ∧
        (∀ q, is_Some (heap m' !! q) ↔ is_Some (heap m !! q)) ∧
        alloc_ok m' = alloc_ok m ∧ mallocs m' = mallocs m ∧
        trace m' = trace m.
Proof.
  intros Hq. pose proof (is_queue_head_not_cell _ _ _ Hq) as Hhc.
  destruct Hq as (lh & Hh & Hseg & Hnd & Hnull).
  destruct r as [mv w].
  destruct Hseg as [Hfirst (e & He & Hprev & Hw & Hlen & Hval & Hrest)].
  simpl in Hnd. apply NoDup_cons in Hnd as [Hna Hnd'].
  assert (a ≠ head) as Hah by (intros ->; rewrite Hh in He; discriminate).
  unfold list_del. rewrite (load_list_elem _ _ _ He). simpl. rewrite Hprev.
  destruct cells as [| [a2 [mv2 w2]] rest].
  - destruct Hrest as [Hnx _]. rewrite Hnx.
    rewrite (store_list_head _ _ _ _ Hh). simpl.
    erewrite store_list_head by (simpl; apply lookup_insert_eq).
    simpl. eexists. split; [reflexivity |]. simpl.
    split.
    { eexists. split; [apply lookup_insert_eq |]. simpl.
      repeat split; try constructor.
      rewrite !lookup_insert_ne
        by (intros E; rewrite <- E in Hnull; congruence).
      exact Hnull. }
    split; [rewrite !lookup_insert_ne by congruence; reflexivity |].
    split.
    { intros q. destruct (decide (q = head)) as [-> | Hqh].
      - rewrite lookup_insert_eq, Hh. reflexivity.
      - rewrite !lookup_insert_ne by congruence. reflexivity. }
    split.
    { intros q ints Hq.
      assert (q ≠ head) by (intros ->; congruence).
      rewrite !lookup_insert_ne by congruence. exact Hq. }
    split; [| auto].
    intros q. destruct (decide (q = head)) as [-> | Hqh].
    + rewrite lookup_insert_eq, Hh. split; eauto.
    + rewrite !lookup_insert_ne by congruence. reflexivity.
  - destruct Hrest as [Hnx (e2 & He2 & Hp2 & Hw2 & Hl2 & Hval2 & Hrest')].
    rewrite Hnx.
    assert (a2 ≠ head) as Ha2h
      by (intros E; rewrite E, Hh in He2; discriminate).
    assert (a2 ≠ a) as Ha2a by (intros E; apply Hna; rewrite E; simpl; left).
    rewrite (store_list_elem _ _ _ _ He2). simpl.
    erewrite store_list_head
      by (simpl; rewrite lookup_insert_ne by congruence; exact Hh).
    simpl. eexists. split; [reflexivity |]. simpl.
    split.
    { eexists. split; [apply lookup_insert_eq |]. simpl.
      split; [| split; [exact Hnd' |]].
      - split; [reflexivity |]. eexists.
        split; [rewrite lookup_insert_ne by congruence;
                apply lookup_insert_eq |].
        simpl. repeat split; try assumption.
        + assert (value e2 ≠ head)
            by (intros E; rewrite E, Hh in Hval2; discriminate).
          assert (value e2 ≠ a2)
            by (intros E; rewrite E, He2 in Hval2; discriminate).
          rewrite !lookup_insert_ne by congruence. exact Hval2.
        + eapply dseg_frame; [| | exact Hrest'].
          * intros b Hb.
            assert (b ≠ head)
              by (intros ->; apply Hhc; simpl; right; right; exact Hb).
            assert (b ≠ a2)
              by (intros ->; simpl in Hnd';
                  apply NoDup_cons in Hnd' as [Hx _]; apply Hx, Hb).
            rewrite !lookup_insert_ne by congruence. reflexivity.
          * intros q ints Hq.
            assert (q ≠ head) by (intros ->; congruence).
            assert (q ≠ a2) by (intros ->; congruence).
            rewrite !lookup_insert_ne by congruence. exact Hq.
      - rewrite !lookup_insert_ne
          by (intros E; rewrite <- E in Hnull; congruence).
        exact Hnull. }
    split; [rewrite !lookup_insert_ne by congruence; reflexivity |].
    split.
    { intros q. destruct (decide (q = head)) as [-> | Hqh].
      - rewrite lookup_insert_eq, Hh. reflexivity.
      - rewrite lookup_insert_ne by congruence.
        destruct (decide (q = a2)) as [-> | Hqa].
        + rewrite lookup_insert_eq, He2. reflexivity.
        + rewrite lookup_insert_ne by congruence. reflexivity. }
    split.
    { intros q ints Hq.
      assert (q ≠ head) by (intros ->; congruence).
      assert (q ≠ a2) by (intros ->; congruence).
      rewrite !lookup_insert_ne by congruence. exact Hq. }
    split; [| auto].
    intros q. destruct (decide (q = head)) as [-> | Hqh].
    + rewrite lookup_insert_eq, Hh. split; eauto.
    + rewrite lookup_insert_ne by congruence.
      destruct (decide (q = a2)) as [-> | Hqa].
      * rewrite lookup_insert_eq, He2. split; eauto.
      * rewrite lookup_insert_ne by congruence. reflexivity.
Qed.

(** X8. list_del on the front entry of a well-formed queue unlinks it:
    the queue is well formed with the remaining entries, in the same
    order; the entry and its move array are still allocated (list_del
    frees nothing), and no block is added or removed. *)
Theorem list_del_unlinks_front
    (m : mem) (head a : Z) (r : list Z * Z) (cells : list cell) :
  is_queue m head ((a, r) :: cells) ->
  ∃ m', list_del a m = Ok m' ∧
        is_queue m' head cells ∧
        q_records m' head = Ok (cells.*2) ∧
        heap m' !! a = heap m !! a ∧
        (∀ q, is_Some (heap m' !! q) ↔ is_Some (heap m !! q)).
Proof.
  intros Hq.
  destruct (list_del_front_queue m head a r cells Hq)
    as (m' & Hrun & Hq' & Ha & _ & _ & Hdom & _).
  exists m'. split; [exact Hrun |]. split; [exact Hq' |].
  split; [apply (q_records_queue _ _ _ Hq') | auto].
Qed.

(** X9. list_add followed by list_del of the same node gives the queue
    back: with the node linked the traversal reads its record first, and
    once it is unlinked the traversal reads the records that were there
    before. *)
Theorem list_add_then_list_del
    (m : mem) (head n : Z) (cells : list cell) (e : element_t)
    (mv : list Z) :
  is_queue m head cells ->
  heap m !! n = Some (BElem e) ->
  n ∉ cells.*1 ->
  heap m !! value e = Some (BInts mv) ->
  len e = Z.of_nat (length mv) ->
  ∃ m1 m2, list_add n head m = Ok m1 ∧
           q_records m1 head = Ok ((mv, ai e) :: cells.*2) ∧
           list_del n m1 = Ok m2 ∧
           is_queue m2 head cells ∧
           q_records m2 head = Ok (cells.*2).
Proof.
  intros Hq Hn Hfresh Hv Hlen.
  destruct (list_add_queue m head cells n e mv Hq Hn Hfresh Hv Hlen)
    as (m1 & Hadd & Hq1 & _).
  destruct (list_del_front_queue m1 head n (mv, ai e) cells Hq1)
    as (m2 & Hdel & Hq2 & _).
  exists m1, m2. split; [exact Hadd |].
  split; [apply (q_records_queue _ _ _ Hq1) |].
  split; [exact Hdel |]. split; [exact Hq2 |].
  apply (q_records_queue _ _ _ Hq2).
Qed.


(** ** The keyboard handler *)

Section keyboard.

Import Pkg XoUser.

(** What the keyboard handler changes, for every input. *)
Lemma keyboard_frame (k : keyboard) (st : state) :
  let st' := listen_keyboard_handler k st in
  table st' = table st ∧
  move_record st' = move_record st ∧
  move_count st' = move_count st ∧
  head st' = head st ∧
  pkg_obj st' = pkg_obj st ∧
  heap (memory st') = heap (memory st) ∧
  alloc_ok (memory st') = alloc_ok (memory st) ∧
  mallocs (memory st') = mallocs (memory st) ∧
  end_attr st' = (end_attr st || is_key 17 (input k)) ∧
  read_attr st' =
    (if is_key 16 (input k) then negb (read_attr st)
     else if is_key 17 (input k) then false else read_attr st) ∧
  (is_key 16 (input k) = false -> is_key 17 (input k) = false ->
   trace (memory st') =
     trace (memory st) ++
       [SysOpen XO_DEVICE_ATTR_FILE (attr_fd k); SysRead STDIN_FILENO 1;
        SysClose (attr_fd k)]).
Proof.
  unfold listen_keyboard_handler, is_key.
  destruct (input k) as [c |]; simpl.
  - destruct (c =? 16) eqn:H16; simpl.
    + assert ((c =? 17) = false) as ->
        by (apply Z.eqb_eq in H16; subst c; reflexivity).
      rewrite orb_false_r, xorb_true_r.
      destruct (negb (read_attr st)); simpl;
        repeat split; try reflexivity; discriminate.
    + destruct (c =? 17) eqn:H17; simpl.
      * rewrite orb_true_r. repeat split; try reflexivity; discriminate.
      * rewrite orb_false_r, <- !app_assoc.
        repeat split; try reflexivity.
  - rewrite orb_false_r, <- !app_assoc. repeat split; reflexivity.
Qed.

(** X10. Whatever is typed, the keyboard handler leaves the board, the
    move log, the queue header, the last device record, the heap and the
    allocator alone. end_attr is never cleared and is set only by the
    byte 17; read_attr is flipped by 16, cleared by 17 and kept
    otherwise. For any other byte, or when no byte could be read, the
    attribute file is opened and closed but neither read nor written. *)
Theorem keyboard_handler_frame (k : keyboard) (st : state) :
  let st' := listen_keyboard_handler k st in
  table st' = table st ∧
  move_record st' = move_record st ∧
  move_count st' = move_count st ∧
  head st' = head st ∧
  pkg_obj st' = pkg_obj st ∧
  heap (memory st') = heap (memory st) ∧
  alloc_ok (memory st') = alloc_ok (memory st) ∧
  mallocs (memory st') = mallocs (memory st) ∧
  end_attr st' = (end_attr st || is_key 17 (input k)) ∧
  read_attr st' =
    (if is_key 16 (input k) then negb (read_attr st)
     else if is_key 17 (input k) then false else read_attr st) ∧
  (is_key 16 (input k) = false -> is_key 17 (input k) = false ->
   trace (memory st') =
     trace (memory st) ++
       [SysOpen XO_DEVICE_ATTR_FILE (attr_fd k); SysRead STDIN_FILENO 1;
        SysClose (attr_fd k)]).
Proof. apply keyboard_frame. Qed.

(** X11. On the byte 16 (Ctrl-P) the handler issues a 6-byte read of the
    attribute file, turns byte 0 of what was read into '1' if it was '0'
    and into '0' if it was anything else, writes the 6 bytes back and
    flips read_attr; it prints the line about stopping the display
    exactly when read_attr was true. The flag is flipped whatever byte 0
    was. *)
Theorem display_toggle_key (k : keyboard) (st : state) :
  input k = Some 16 ->
  length (buf k) = 20%nat ->
  let st' := listen_keyboard_handler k st in
  let byte0 := if nth 0 (buf k) 0 =? 48 then 49 else 48 in
  read_attr st' = negb (read_attr st) ∧
  end_attr st' = end_attr st ∧
  trace (memory st') =
    trace (memory st) ++
      [SysOpen XO_DEVICE_ATTR_FILE (attr_fd k);
       SysRead STDIN_FILENO 1;
       SysRead (attr_fd k) 6;
       SysWrite (attr_fd k) (<[0%nat := byte0]> (take 6 (buf k)))] ++
      (if read_attr st
       then [Printf ("Stopping to display the chess board..." ++ nl)]
       else []) ++
      [SysClose (attr_fd k)] ∧
  length (<[0%nat := byte0]> (take 6 (buf k))) = 6%nat ∧
  (∀ i, (1 <= i < 6)%nat ->
        <[0%nat := byte0]> (take 6 (buf k)) !! i = buf k !! i).
Proof.
  intros Hin Hlen st' byte0. subst st' byte0.
  unfold listen_keyboard_handler. rewrite Hin. simpl.
  rewrite take_insert_lt by lia. rewrite xorb_true_r.
  assert ((if negb (nth 0 (buf k) 0 - 48 =? 0) then 48 else 49) =
          (if nth 0 (buf k) 0 =? 48 then 49 else 48)) as ->.
  { destruct (nth 0 (buf k) 0 =? 48) eqn:E.
    - apply Z.eqb_eq in E. rewrite E. reflexivity.
    - apply Z.eqb_neq in E.
      replace (nth 0 (buf k) 0 - 48 =? 0) with false
        by (symmetry; apply Z.eqb_neq; lia).
      reflexivity. }
  split; [destruct (read_attr st); reflexivity |].
  split; [destruct (read_attr st); reflexivity |].
  split; [destruct (read_attr st); simpl; rewrite <- !app_assoc;
          reflexivity |].
  split; [rewrite length_insert, length_take; lia |].
  intros i Hi. rewrite list_lookup_insert_ne by lia.
  apply lookup_take_lt. lia.
Qed.

End keyboard.


(** ** The device branch and the loop *)

Section loop.

Import Pkg XoUser.

Variables BOARD_SIZE N_GRIDS DRAWBUFFER_SIZE : Z.

Local Abbreviation device_ready :=
  (XoUser.device_ready BOARD_SIZE N_GRIDS DRAWBUFFER_SIZE).
Local Abbreviation loop_body :=
  (XoUser.loop_body BOARD_SIZE N_GRIDS DRAWBUFFER_SIZE).
Local Abbreviation main_loop :=
  (XoUser.main_loop BOARD_SIZE N_GRIDS DRAWBUFFER_SIZE).
Local Abbreviation draw_board :=
  (XoUser.draw_board BOARD_SIZE N_GRIDS DRAWBUFFER_SIZE).

Lemma device_ready_flags (rd : option package) (st st' : state) :
  device_ready rd st = Ok st' ->
  end_attr st' = end_attr st ∧
  read_attr st' = read_attr st ∧
  head st' = head st ∧
  pkg_obj st' = received rd st ∧
  (PKG_GET_END (val (received rd st)) = true ->
   table st' = replicate (Z.to_nat N_GRIDS) 32).
Proof.
  unfold XoUser.device_ready. rewrite pkg_obj_received.
  set (st1 := match rd with Some p => set_pkg_obj p st | None => st end).
  assert (end_attr st1 = end_attr st ∧ read_attr st1 = read_attr st ∧
          head st1 = head st ∧ pkg_obj st1 = received rd st)
    as (He1 & Hr1 & Hh1 & Hp1)
    by (unfold st1, received; destruct rd; repeat split; reflexivity).
  set (pkg := received rd st) in *.
  destruct ((move pkg =? -1) && negb (PKG_GET_END (val pkg))) eqn:Hhb.
  - intros E. inversion E; subst st'.
    repeat split; try assumption.
    intros Hend. rewrite Hend, andb_false_r in Hhb. discriminate.
  - clear Hhb.
    assert (∀ st2,
              (if negb (move pkg =? -1)
               then if (0 <=? move pkg) && (move pkg <? N_GRIDS)
                    then record_move N_GRIDS (move pkg)
                           (set_table
                              (<[Z.to_nat (move pkg) :=
                                   PKG_GET_AI (val pkg)]> (table st1)) st1)
                    else Fault TableOutOfBounds
               else Ok st1) = Ok st2 ->
              end_attr st2 = end_attr st ∧ read_attr st2 = read_attr st ∧
              head st2 = head st ∧ pkg_obj st2 = pkg) as Hst2.
    { intros st2. destruct (negb (move pkg =? -1)).
      - destruct ((0 <=? move pkg) && (move pkg <? N_GRIDS));
          [| discriminate].
        unfold record_move. simpl.
        destruct ((0 <=? move_count st1) && (move_count st1 <? N_GRIDS));
          [| discriminate].
        intros E. inversion E. simpl. auto.
      - intros E. inversion E; subst st2. auto. }
    match goal with
    | |- (?x ≫= _) = _ -> _ => destruct x as [st2 | |] eqn:Hx
    end; try discriminate.
    destruct (Hst2 st2 eq_refl) as (He2 & Hr2 & Hh2 & Hp2).
    rewrite bind_Ok.
    set (st3 := if read_attr st2
                then out (PrintBoard (draw_board (table st2)))
                       (out (Printf (esc ++ "[H" ++ esc ++ "[J")) st2)
                else st2).
    assert (end_attr st3 = end_attr st ∧ read_attr st3 = read_attr st ∧
            head st3 = head st ∧ pkg_obj st3 = pkg)
      as (He3 & Hr3 & Hh3 & Hp3)
      by (unfold st3; destruct (read_attr st2); simpl; auto).
    destruct (PKG_GET_END (val pkg)).
    + unfold record_to_queue.
      destruct (move_count st3 =? 0).
      * rewrite bind_Ok. intros E. inversion E. simpl. auto 10.
      * destruct (q_insert_head _ _ _ _ _) as [[[|] m'] | |]; simpl;
          try discriminate; intros E; inversion E; simpl; auto 10.
    + intros E. inversion E; subst st'.
      repeat split; try assumption. discriminate.
Qed.

(** X12. The device branch never touches the flags or the queue header:
    whatever record arrives, when the branch ends normally end_attr,
    read_attr and head are what they were and pkg_obj holds the record
    decoded; and when that record has its end flag set the board is
    filled with ' ' afterwards, whether or not a game record could be
    queued. *)
Theorem device_branch_keeps_flags_and_blanks_board
    (rd : option package) (st st' : state) :
  device_ready rd st = Ok st' ->
  end_attr st' = end_attr st ∧
  read_attr st' = read_attr st ∧
  head st' = head st ∧
  pkg_obj st' = received rd st ∧
  (PKG_GET_END (val (received rd st)) = true ->
   table st' = replicate (Z.to_nat N_GRIDS) 32).
Proof. apply device_ready_flags. Qed.

(** X13. The loop ends only through Ctrl-Q: if the loop run on some
    wake-ups has exited, either end_attr was already set or one of the
    wake-ups was a keyboard wake-up on which the byte 17 was read. *)
Theorem loop_exits_only_by_ctrl_q (ticks : list tick) (st st' : state) :
  main_loop ticks st = Ok (LoopExited, st') ->
  end_attr st = true ∨
  Exists (fun t => stdin_set (sel t) = true ∧ input (kb t) = Some 17) ticks.
Proof.
  revert st. induction ticks as [| t rest IH]; intros st; simpl.
  - destruct (end_attr st); [auto | discriminate].
  - destruct (end_attr st) eqn:He; [auto |].
    unfold XoUser.loop_body.
    destruct (result (sel t) <? 0); [discriminate |].
    destruct (stdin_set (sel t)) eqn:Hs.
    + rewrite bind_Ok. intros Hrun.
      destruct (keyboard_frame (kb t) st)
        as (_ & _ & _ & _ & _ & _ & _ & _ & Hend & _).
      destruct (is_key 17 (input (kb t))) eqn:Hk.
      * right. apply Exists_cons_hd. split; [exact Hs |].
        unfold is_key in Hk. destruct (input (kb t)) as [c |];
          [| discriminate].
        apply Z.eqb_eq in Hk. subst c. reflexivity.
      * rewrite He in Hend. change (false || false) with false in Hend.
        destruct (IH _ Hrun) as [Habs | Hex]; [congruence |].
        right. apply Exists_cons_tl, Hex.
    + destruct (device_set (sel t)).
      * destruct (device_ready (dev t) st) as [st1 | |] eqn:Hd;
          try discriminate.
        rewrite bind_Ok. intros Hrun.
        destruct (device_ready_flags _ _ _ Hd) as (Hend & _).
        destruct (IH _ Hrun) as [Habs | Hex]; [congruence |].
        right. apply Exists_cons_tl, Hex.
      * rewrite bind_Ok. intros Hrun.
        destruct (IH _ Hrun) as [Habs | Hex]; [congruence |].
        right. apply Exists_cons_tl, Hex.
Qed.



Lemma queue_over_same_heap h0 m m' head (cells : list cell) :
  heap m' = heap m -> queue_over h0 m head cells ->
  queue_over h0 m' head cells.
Proof.
  intros E. unfold queue_over, is_queue. rewrite E. tauto.
Qed.

(** What record_to_queue does on top of a queue, in every case. *)
Lemma record_to_queue_over h0 (winner : Z) (st : state)
    (cells : list cell) :
  queue_over h0 (memory st) (head st) cells ->
  move_count st <= Z.of_nat (length (move_record st)) ->
  ∃ st',
    record_to_queue winner st = Ok st' ∧
    table st' = table st ∧
    move_record st' = move_record st ∧
    head st' = head st ∧
    read_attr st' = read_attr st ∧
    end_attr st' = end_attr st ∧
    pkg_obj st' = pkg_obj st ∧
    (if move_count st =? 0 then st' = st
     else if next_malloc_ok (memory st) && second_malloc_ok (memory st) &&
             (0 <=? move_count st)
     then (∃ n, queue_over h0 (memory st') (head st)
                  ((n, (take (Z.to_nat (move_count st)) (move_record st),
                        winner)) :: cells)) ∧
          move_count st' = 0 ∧
          trace (memory st') = trace (memory st)
     else queue_over h0 (memory st') (head st) cells ∧
          heap (memory st') = heap (memory st) ∧
          move_count st' = move_count st ∧
          trace (memory st') =
            trace (memory st) ++
              [alloc_msg; Perror "Failed to insert move into queue"]).
Proof.
  intros Hover Hlen. unfold record_to_queue.
  destruct (move_count st =? 0) eqn:Hz.
  - exists st. repeat split; reflexivity.
  - destruct (q_insert_head_over_outcome h0 (memory st) (head st) cells
                (move_record st) (move_count st) winner Hover Hlen)
      as (b & m' & cells' & Hrun & Hb & Hover' & _ & Hcells & Htr).
    rewrite Hrun, bind_Ok. rewrite <- Hb.
    destruct b; simpl.
    + eexists. split; [reflexivity |]. simpl.
      repeat (split; [reflexivity |]).
      destruct Hcells as [n ->].
      split; [eauto |]. split; [reflexivity |].
      rewrite Htr, app_nil_r. reflexivity.
    + eexists. split; [reflexivity |]. simpl.
      repeat (split; [reflexivity |]).
      destruct Hcells as [-> Hheap].
      split; [eapply queue_over_same_heap; [| exact Hover']; reflexivity |].
      split; [exact Hheap |]. split; [reflexivity |].
      rewrite Htr, <- app_assoc. reflexivity.
Qed.

Ltac session_parts := split; [| split; [| split]]; simpl; try assumption.

(** What the device branch does to a session, in every case. *)
Lemma device_ready_over h0 (rd : option package) (st st' : state)
    (cells : list cell) :
  session_ok N_GRIDS h0 st cells ->
  device_ready rd st = Ok st' ->
  ∃ cells' diag,
    session_ok N_GRIDS h0 st' cells' ∧
    (cells' = cells ∨ ∃ n r, cells' = (n, r) :: cells) ∧
    trace (memory st') =
      trace (memory st) ++
        (if (move (received rd st) =? -1) &&
            negb (PKG_GET_END (val (received rd st)))
         then []
         else
           (if read_attr st
            then [Printf (esc ++ "[H" ++ esc ++ "[J");
                  PrintBoard
                    (draw_board
                       (if move (received rd st) =? -1 then table st
                        else <[Z.to_nat (move (received rd st)) :=
                                 PKG_GET_AI (val (received rd st))]>
                               (table st)))]
            else []) ++ diag) ∧
    (diag = [] ∨
     diag = [alloc_msg; Perror "Failed to insert move into queue"]) ∧
    (PKG_GET_END (val (received rd st)) = false -> diag = []).
Proof.
  intros (Hover & Htl & Hrl & Hmc).
  unfold XoUser.device_ready. rewrite pkg_obj_received.
  set (st1 := match rd with Some p => set_pkg_obj p st | None => st end).
  assert (session_ok N_GRIDS h0 st1 cells ∧ memory st1 = memory st ∧
          table st1 = table st ∧ read_attr st1 = read_attr st)
    as (Hok1 & Hm1 & Ht1 & Hra1).
  { unfold st1. destruct rd; (split; [session_parts | auto]). }
  clearbody st1. clear Hover Htl Hrl Hmc.
  set (pkg := received rd st) in *. clearbody pkg.
  destruct ((move pkg =? -1) && negb (PKG_GET_END (val pkg))).
  - intros E. inversion E; subst st'. exists cells, [].
    split; [exact Hok1 |]. split; [auto |].
    rewrite Hm1, app_nil_r. auto.
  - set (board := if move pkg =? -1 then table st
                  else <[Z.to_nat (move pkg) := PKG_GET_AI (val pkg)]>
                         (table st)).
    assert (∀ st2,
              (if negb (move pkg =? -1)
               then if (0 <=? move pkg) && (move pkg <? N_GRIDS)
                    then record_move N_GRIDS (move pkg)
                           (set_table
                              (<[Z.to_nat (move pkg) :=
                                   PKG_GET_AI (val pkg)]> (table st1)) st1)
                    else Fault TableOutOfBounds
               else Ok st1) = Ok st2 ->
              session_ok N_GRIDS h0 st2 cells ∧ memory st2 = memory st ∧
              table st2 = board ∧ read_attr st2 = read_attr st) as Hst2.
    { intros st2. unfold board. destruct (move pkg =? -1); simpl.
      - intros E. inversion E; subst st2. auto.
      - destruct ((0 <=? move pkg) && (move pkg <? N_GRIDS));
          [| discriminate].
        unfold record_move. simpl.
        destruct ((0 <=? move_count st1) && (move_count st1 <? N_GRIDS))
          eqn:Hc; [| discriminate].
        apply andb_true_iff in Hc as [Hc0 HcN].
        apply Z.leb_le in Hc0. apply Z.ltb_lt in HcN.
        destruct Hok1 as (Hover & Htl & Hrl & Hmc).
        intros E. inversion E. simpl.
        split; [| rewrite Ht1; auto].
        session_parts; rewrite ?length_insert; try assumption; lia. }
    match goal with
    | |- (?x ≫= _) = _ -> _ => destruct x as [st2 | |] eqn:Hx
    end; try discriminate.
    destruct (Hst2 st2 eq_refl) as (Hok2 & Hm2 & Ht2 & Hra2).
    clear Hst2 Hx Hok1.
    rewrite bind_Ok.
    set (disp := if read_attr st
                 then [Printf (esc ++ "[H" ++ esc ++ "[J");
                       PrintBoard (draw_board board)]
                 else []).
    set (st3 := if read_attr st2
                then out (PrintBoard (draw_board (table st2)))
                       (out (Printf (esc ++ "[H" ++ esc ++ "[J")) st2)
                else st2).
    assert (session_ok N_GRIDS h0 st3 cells ∧
            trace (memory st3) = trace (memory st) ++ disp)
      as (Hok3 & Htr3).
    { destruct Hok2 as (Hover & Htl & Hrl & Hmc).
      unfold st3, disp. rewrite Hra2.
      destruct (read_attr st); (split; [session_parts |]); simpl.
      - rewrite Hm2, Ht2, <- app_assoc. reflexivity.
      - rewrite Hm2, app_nil_r. reflexivity. }
    clearbody st3. clear Hok2.
    destruct Hok3 as (Hover & Htl & Hrl & Hmc).
    destruct (PKG_GET_END (val pkg)).
    + destruct (record_to_queue_over h0 (PKG_GET_AI (val pkg)) st3 cells
                  Hover ltac:(lia))
        as (st4 & Hrun & Ht4 & Hr4 & Hh4 & _ & _ & _ & Hcase).
      rewrite Hrun, bind_Ok. intros E. inversion E; subst st'.
      destruct (move_count st3 =? 0).
      * subst st4. exists cells, []. split; [| split; [auto |]].
        -- session_parts. apply length_replicate.
        -- simpl. rewrite Htr3, app_nil_r.
           split; [reflexivity |]. split; [auto | discriminate].
      * destruct (next_malloc_ok (memory st3) &&
                  second_malloc_ok (memory st3) && (0 <=? move_count st3)).
        -- destruct Hcase as ([n Hq] & Hc & Htr4).
           eexists. exists []. split; [| split; [right; eauto |]].
           ++ session_parts; rewrite ?Hh4, ?Hr4, ?Hc;
                [exact Hq | apply length_replicate | exact Hrl | lia].
           ++ simpl. rewrite Htr4, Htr3, app_nil_r.
              split; [reflexivity |]. split; [auto | discriminate].
        -- destruct Hcase as (Hq & _ & Hc & Htr4).
           exists cells,
             [alloc_msg; Perror "Failed to insert move into queue"].
           split; [| split; [auto |]].
           ++ session_parts; rewrite ?Hh4, ?Hr4, ?Hc;
                [exact Hq | apply length_replicate | exact Hrl | exact Hmc].
           ++ simpl. rewrite Htr4, Htr3, <- app_assoc.
              split; [reflexivity |]. split; [auto | discriminate].
    + intros E. inversion E; subst st'. exists cells, [].
      split; [session_parts |]. split; [auto |].
      rewrite Htr3, app_nil_r. auto.
Qed.

Lemma loop_body_session h0 (t : tick) (st st' : state) (cells : list cell) :
  session_ok N_GRIDS h0 st cells ->
  loop_body t st = Ok st' ->
  ∃ cells', session_ok N_GRIDS h0 st' cells' ∧
            (cells' = cells ∨ ∃ n r, cells' = (n, r) :: cells).
Proof.
  intros Hok. unfold XoUser.loop_body.
  destruct (result (sel t) <? 0); [discriminate |].
  destruct (stdin_set (sel t)).
  - intros E. inversion E; subst st'. exists cells. split; [| auto].
    destruct (keyboard_frame (kb t) st)
      as (Ht & Hr & Hc & Hh & _ & Hheap & _).
    destruct Hok as (Hover & Htl & Hrl & Hmc).
    unfold session_ok. rewrite Ht, Hr, Hc, Hh.
    split; [| auto].
    eapply queue_over_same_heap; [exact Hheap | exact Hover].
  - destruct (device_set (sel t)).
    + intros Hrun.
      destruct (device_ready_over h0 (dev t) st st' cells Hok Hrun)
        as (cells' & _ & Hok' & Hc & _).
      eauto.
    + intros E. inversion E; subst st'. eauto.
Qed.

Lemma main_loop_session h0 (ticks : list tick) :
  ∀ (st st' : state) (cells : list cell) (status : loop_status),
    session_ok N_GRIDS h0 st cells ->
    main_loop ticks st = Ok (status, st') ->
    ∃ cells', session_ok N_GRIDS h0 st' cells' ∧
              ∃ newer, cells'.*2 = newer ++ cells.*2.
Proof.
  induction ticks as [| t rest IH]; intros st st' cells status Hok; simpl.
  - destruct (end_attr st); intros E; inversion E; subst st';
      exists cells; (split; [exact Hok | exists []; reflexivity]).
  - destruct (end_attr st).
    + intros E; inversion E; subst st'.
      exists cells; (split; [exact Hok | exists []; reflexivity]).
    + destruct (loop_body t st) as [st1 | |] eqn:Hb; try discriminate.
      rewrite bind_Ok. intros Hrun.
      destruct (loop_body_session h0 t st st1 cells Hok Hb)
        as (cells1 & Hok1 & Hc1).
      destruct (IH st1 st' cells1 status Hok1 Hrun)
        as (cells' & Hok' & newer & Hnew).
      exists cells'. split; [exact Hok' |].
      destruct Hc1 as [-> | (n & r & ->)].
      * exists newer. exact Hnew.
      * exists (newer ++ [r]). rewrite Hnew. simpl.
        rewrite <- app_assoc. reflexivity.
Qed.

Lemma main_init_session (m : mem) :
  heap m !! NULL = None ->
  0 <= N_GRIDS ->
  (next_malloc_ok m = true ->
   ∃ st, main_init N_GRIDS m = Ok st ∧
         session_ok N_GRIDS (heap m) st [] ∧
         read_attr st = true ∧ end_attr st = false ∧
         move_count st = 0 ∧
         table st = replicate (Z.to_nat N_GRIDS) 0 ∧
         trace (memory st) = trace m) ∧
  (next_malloc_ok m = false -> main_init N_GRIDS m = Exited 1).
Proof.
  intros Hnull HN. split; intros Hok.
  - destruct (proj1 (q_new_over m Hnull) Hok)
      as (p & m' & Hrun & Hp & _ & Hover & _).
    unfold main_init. rewrite Hrun, bind_Ok.
    rewrite (eqb_NULL_false _ Hp).
    eexists. split; [reflexivity |].
    split; [session_parts; rewrite ?length_replicate; try reflexivity; lia |].
    simpl. repeat (split; [reflexivity |]).
    revert Hrun. unfold q_new, malloc, next_malloc_ok in *.
    destruct (alloc_ok m) as [| [|] o]; try discriminate.
    rewrite (eqb_NULL_false _ (fresh_addr_not_NULL _)).
    unfold INIT_LIST_HEAD, store_list. simpl.
    rewrite lookup_insert_eq. simpl. rewrite lookup_insert_eq. simpl.
    intros E. inversion E. reflexivity.
  - unfold main_init. rewrite (q_new_fails m Hok), bind_Ok. reflexivity.
Qed.


(** X14. Every turn of the loop that ends normally keeps the session
    invariant: the queue stays well formed on top of the starting heap,
    with the same entries or one more at the front; table and
    move_record keep their N_GRIDS elements and move_count stays within
    [0, N_GRIDS]. *)
Theorem loop_body_keeps_session
    (h0 : gmap Z block) (t : tick) (st st' : state) (cells : list cell) :
  session_ok N_GRIDS h0 st cells ->
  loop_body t st = Ok st' ->
  ∃ cells', session_ok N_GRIDS h0 st' cells' ∧
            (cells' = cells ∨ ∃ n r, cells' = (n, r) :: cells).
Proof. apply loop_body_session. Qed.


(** X16. A whole session leaks nothing: whatever the wake-ups and
    whatever the allocator answers, if main got past q_new and the loop
    has stopped or is waiting, q_free(head) ends normally and the heap is
    again the one main started with. *)
Theorem session_releases_all_memory
    (m0 : mem) (ticks : list tick) (st0 st : state) (status : loop_status) :
  heap m0 !! NULL = None ->
  0 <= N_GRIDS ->
  main_init N_GRIDS m0 = Ok st0 ->
  main_loop ticks st0 = Ok (status, st) ->
  ∃ m', q_free (head st) (memory st) = Ok m' ∧ heap m' = heap m0.
Proof.
  intros Hnull HN Hinit Hrun.
  destruct (main_init_session m0 Hnull HN) as [Hyes Hno].
  destruct (next_malloc_ok m0).
  - destruct (Hyes eq_refl) as (st0' & Hinit' & Hok & _).
    rewrite Hinit in Hinit'. inversion Hinit'; subst st0'.
    destruct (main_loop_session (heap m0) ticks st0 st [] status Hok Hrun)
      as (cells' & (Hover & _) & _).
    destruct (q_free_over (heap m0) (memory st) (head st) cells' Hover)
      as (m' & Hfree & Hheap & _).
    eauto.
  - rewrite (Hno eq_refl) in Hinit. discriminate.
Qed.

(** X17. main, from q_new to the loop: when the header can be allocated
    the session starts with an empty queue on top of the heap, read_attr
    true, end_attr false, an empty move log and a board of N_GRIDS zero
    bytes (not the ' ' that a finished game leaves); when it cannot, the
    program exits with status 1. *)
Theorem main_init_establishes_session (m : mem) :
  heap m !! NULL = None ->
  0 <= N_GRIDS ->
  (next_malloc_ok m = true ->
   ∃ st, main_init N_GRIDS m = Ok st ∧
         session_ok N_GRIDS (heap m) st [] ∧
         read_attr st = true ∧ end_attr st = false ∧
         move_count st = 0 ∧
         table st = replicate (Z.to_nat N_GRIDS) 0 ∧
         trace (memory st) = trace m) ∧
  (next_malloc_ok m = false -> main_init N_GRIDS m = Exited 1).
Proof. apply main_init_session. Qed.


End loop.

(** X19. On top of a queue, record_to_queue either does nothing (empty
    log), or queues the first move_count entries of move_record with the
    winner and resets move_count, printing nothing, or, when an
    allocation fails, leaves queue, heap and move_count as they were and
    prints the two diagnostics. In no case does it touch the board, the
    contents of move_record or the flags. *)
Theorem record_to_queue_outcome
    (h0 : gmap Z block) (winner : Z) (st : XoUser.state)
    (cells : list cell) :
  queue_over h0 (XoUser.memory st) (XoUser.head st) cells ->
  XoUser.move_count st <= Z.of_nat (length (XoUser.move_record st)) ->
  ∃ st',
    XoUser.record_to_queue winner st = Ok st' ∧
    XoUser.table st' = XoUser.table st ∧
    XoUser.move_record st' = XoUser.move_record st ∧
    XoUser.head st' = XoUser.head st ∧
    XoUser.read_attr st' = XoUser.read_attr st ∧
    XoUser.end_attr st' = XoUser.end_attr st ∧
    XoUser.pkg_obj st' = XoUser.pkg_obj st ∧
    (if XoUser.move_count st =? 0 then st' = st
     else if next_malloc_ok (XoUser.memory st) &&
             second_malloc_ok (XoUser.memory st) &&
             (0 <=? XoUser.move_count st)
     then (∃ n, queue_over h0 (XoUser.memory st') (XoUser.head st)
                  ((n, (take (Z.to_nat (XoUser.move_count st))
                          (XoUser.move_record st), winner)) :: cells)) ∧
          XoUser.move_count st' = 0 ∧
          trace (XoUser.memory st') = trace (XoUser.memory st)
     else queue_over h0 (XoUser.memory st') (XoUser.head st) cells ∧
          heap (XoUser.memory st') = heap (XoUser.memory st) ∧
          XoUser.move_count st' = XoUser.move_count st ∧
          trace (XoUser.memory st') =
            trace (XoUser.memory st) ++
              [alloc_msg; Perror "Failed to insert move into queue"]).
Proof. apply record_to_queue_over. Qed.


(** ** draw_board *)

Section board.

Variables BOARD_SIZE N_GRIDS DRAWBUFFER_SIZE : Z.

Local Abbreviation draw_cells := (XoUser.draw_cells BOARD_SIZE N_GRIDS).
Local Abbreviation draw_rows :=
  (XoUser.draw_rows BOARD_SIZE N_GRIDS DRAWBUFFER_SIZE).
Local Abbreviation draw_board :=
  (XoUser.draw_board BOARD_SIZE N_GRIDS DRAWBUFFER_SIZE).

Lemma draw_cells_grows (table : list Z) :
  ∀ n j k buf,
    (length buf ≤ length (draw_cells n table j k buf).1)%nat.
Proof.
  induction n as [| n IH]; intros j k buf; simpl; [lia |].
  destruct ((j <? Z.shiftl BOARD_SIZE 1 - 1) && (k <? N_GRIDS));
    [| simpl; lia].
  destruct (negb (Z.land j 1 =? 0)).
  - etransitivity; [| apply IH]. rewrite length_app. simpl. lia.
  - etransitivity; [| apply IH]. rewrite length_app. simpl. lia.
Qed.

Lemma draw_rows_fills (table : list Z) :
  ∀ fuel k buf,
    DRAWBUFFER_SIZE <= Z.of_nat (length buf) + 2 * Z.of_nat fuel ->
    DRAWBUFFER_SIZE <= Z.of_nat (length (draw_rows fuel table k buf)).
Proof.
  induction fuel as [| fuel IH]; intros k buf Hfuel; simpl; [lia |].
  destruct (Z.of_nat (length buf) <? DRAWBUFFER_SIZE) eqn:Hlt;
    [| apply Z.ltb_ge in Hlt; exact Hlt].
  pose proof (draw_cells_grows table
                (Z.to_nat (Z.shiftl BOARD_SIZE 1 - 1)) 0 k buf) as Hg.
  destruct (draw_cells _ table 0 k buf) as [buf1 k1]. simpl in Hg.
  apply IH. rewrite !length_app, length_replicate. simpl. lia.
Qed.

(** X20. draw_board stores into every byte of a buffer of
    DRAWBUFFER_SIZE characters: the while loop stops only once that many
    characters are written, and it does stop. *)
Theorem draw_board_fills_buffer (table : list Z) :
  DRAWBUFFER_SIZE <= Z.of_nat (length (draw_board table)).
Proof.
  unfold XoUser.draw_board. apply draw_rows_fills. simpl. lia.
Qed.

Lemma draw_cells_chars (table : list Z) :
  N_GRIDS <= Z.of_nat (length table) ->
  ∀ n j k buf,
    0 <= k ->
    Forall (board_char table) buf ->
    Forall (board_char table) (draw_cells n table j k buf).1 ∧
    0 <= (draw_cells n table j k buf).2.
Proof.
  intros Hlen. induction n as [| n IH]; intros j k buf Hk Hbuf; simpl;
    [auto |].
  destruct ((j <? Z.shiftl BOARD_SIZE 1 - 1) && (k <? N_GRIDS)) eqn:Hc;
    [| auto].
  apply andb_true_iff in Hc as [_ HkN]. apply Z.ltb_lt in HkN.
  destruct (negb (Z.land j 1 =? 0)).
  - apply IH; [exact Hk |]. apply Forall_app. split; [exact Hbuf |].
    constructor; [| constructor]. unfold board_char. auto.
  - apply IH; [lia |]. apply Forall_app. split; [exact Hbuf |].
    constructor; [| constructor]. unfold board_char. right. right. right.
    apply list_elem_of_In, nth_In. lia.
Qed.

Lemma draw_rows_chars (table : list Z) :
  N_GRIDS <= Z.of_nat (length table) ->
  ∀ fuel k buf,
    0 <= k ->
    Forall (board_char table) buf ->
    Forall (board_char table) (draw_rows fuel table k buf).
Proof.
  intros Hlen. induction fuel as [| fuel IH]; intros k buf Hk Hbuf; simpl;
    [exact Hbuf |].
  destruct (Z.of_nat (length buf) <? DRAWBUFFER_SIZE); [| exact Hbuf].
  destruct (draw_cells_chars table Hlen
              (Z.to_nat (Z.shiftl BOARD_SIZE 1 - 1)) 0 k buf Hk Hbuf)
    as [Hchars Hk1].
  destruct (draw_cells _ table 0 k buf) as [buf1 k1]. simpl in Hchars, Hk1.
  apply IH; [exact Hk1 |].
  repeat (apply Forall_app; split); try exact Hchars.
  - constructor; [| constructor]. unfold board_char. auto.
  - apply Forall_replicate. unfold board_char. auto.
  - constructor; [| constructor]. unfold board_char. auto.
Qed.

(** X21. Every character draw_board stores is a newline, a bar, a dash
    or a cell of the board: it never stores a terminating NUL, so the
    buffer it fills ends without one unless a cell holds the byte 0. *)
Theorem draw_board_characters (table : list Z) :
  N_GRIDS <= Z.of_nat (length table) ->
  Forall (fun c => c = 10 ∨ c = 124 ∨ c = 45 ∨ c ∈ table)
    (draw_board table).
Proof.
  intros Hlen. unfold XoUser.draw_board.
  apply (draw_rows_chars table Hlen); [lia |].
  constructor; [| constructor; [| constructor]]; unfold board_char; auto.
Qed.

End board.


Section grid.

Variables BOARD_SIZE N_GRIDS DRAWBUFFER_SIZE : Z.

Local Abbreviation draw_cells := (XoUser.draw_cells BOARD_SIZE N_GRIDS).
Local Abbreviation draw_rows :=
  (XoUser.draw_rows BOARD_SIZE N_GRIDS DRAWBUFFER_SIZE).
Local Abbreviation draw_board :=
  (XoUser.draw_board BOARD_SIZE N_GRIDS DRAWBUFFER_SIZE).

Lemma shiftl_1 (b : Z) : Z.shiftl b 1 - 1 = 2 * b - 1.
Proof. rewrite Z.shiftl_mul_pow2 by lia. change (2 ^ 1) with 2. lia. Qed.

Lemma land_1_even (i : Z) : Z.land (2 * i) 1 = 0.
Proof.
  change 1 with (Z.ones 1) at 1. rewrite Z.land_ones by lia.
  change (2 ^ 1) with 2. rewrite Z.mul_comm. apply Z.mod_mul. lia.
Qed.

Lemma land_1_odd (i : Z) : Z.land (2 * i + 1) 1 = 1.
Proof.
  change 1 with (Z.ones 1) at 2. rewrite Z.land_ones by lia.
  change (2 ^ 1) with 2. rewrite Z.add_comm, Z.mul_comm, Z.mod_add by lia.
  reflexivity.
Qed.

Lemma cells_line_length table k c :
  (0 < c)%nat -> length (cells_line table k c) = (2 * c - 1)%nat.
Proof.
  revert k. induction c as [| c IH]; intros k Hc; [lia |].
  destruct c as [| c]; [reflexivity |].
  change (cells_line table k (S (S c)))
    with (nth (Z.to_nat k) table 0 :: 124 :: cells_line table (k + 1) (S c)).
  cbn [length]. rewrite IH by lia. lia.
Qed.

(** The first inner loop writes one line of cells when the board has
    them. *)
Lemma draw_cells_line table :
  ∀ c n i k buf,
    (0 < c)%nat ->
    (2 * c - 1 ≤ n)%nat ->
    0 <= i ->
    2 * i + (2 * Z.of_nat c - 1) = 2 * BOARD_SIZE - 1 ->
    0 <= k ->
    k + Z.of_nat c <= N_GRIDS ->
    draw_cells n table (2 * i) k buf =
    (buf ++ cells_line table k c, k + Z.of_nat c).
Proof.
  induction c as [| c IH]; intros n i k buf Hc Hn Hi HW Hk HkN; [lia |].
  destruct c as [| c].
  - destruct n as [| n]; [lia |]. simpl draw_cells. rewrite shiftl_1.
    replace (2 * i <? 2 * BOARD_SIZE - 1) with true
      by (symmetry; apply Z.ltb_lt; lia).
    replace (k <? N_GRIDS) with true by (symmetry; apply Z.ltb_lt; lia).
    rewrite land_1_even. simpl.
    destruct n as [| n]; simpl; [reflexivity |].
    rewrite shiftl_1.
    replace (2 * i + 1 <? 2 * BOARD_SIZE - 1) with false
      by (symmetry; apply Z.ltb_ge; lia).
    reflexivity.
  - destruct n as [| [| n]]; [lia | lia |].
    change (cells_line table k (S (S c)))
      with (nth (Z.to_nat k) table 0 :: 124 ::
            cells_line table (k + 1) (S c)).
    simpl draw_cells. rewrite !shiftl_1.
    replace (2 * i <? 2 * BOARD_SIZE - 1) with true
      by (symmetry; apply Z.ltb_lt; lia).
    replace (k <? N_GRIDS) with true by (symmetry; apply Z.ltb_lt; lia).
    rewrite land_1_even. simpl.
    replace (2 * i + 1 <? 2 * BOARD_SIZE - 1) with true
      by (symmetry; apply Z.ltb_lt; lia).
    replace (k + 1 <? N_GRIDS) with true by (symmetry; apply Z.ltb_lt; lia).
    rewrite land_1_odd. simpl.
    replace (2 * i + 1 + 1) with (2 * (i + 1)) by lia.
    rewrite (IH n (i + 1) (k + 1)) by lia.
    rewrite <- !app_assoc. simpl. f_equal. lia.
Qed.

Lemma draw_rows_grid table :
  1 <= BOARD_SIZE ->
  ∀ r fuel k buf,
    (r ≤ fuel)%nat ->
    Z.of_nat (length buf) + 4 * BOARD_SIZE * Z.of_nat r = DRAWBUFFER_SIZE ->
    0 <= k ->
    k + BOARD_SIZE * Z.of_nat r <= N_GRIDS ->
    draw_rows fuel table k buf = buf ++ grid_rows BOARD_SIZE table k r.
Proof.
  intros HB. induction r as [| r IH]; intros fuel k buf Hfuel HD Hk HkN.
  - simpl grid_rows. rewrite app_nil_r.
    destruct fuel; simpl; [reflexivity |].
    replace (Z.of_nat (length buf) <? DRAWBUFFER_SIZE) with false
      by (symmetry; apply Z.ltb_ge; lia).
    reflexivity.
  - destruct fuel as [| fuel]; [lia |]. simpl draw_rows.
    replace (Z.of_nat (length buf) <? DRAWBUFFER_SIZE) with true
      by (symmetry; apply Z.ltb_lt; nia).
    rewrite shiftl_1.
    pose proof (draw_cells_line table (Z.to_nat BOARD_SIZE)
                  (Z.to_nat (2 * BOARD_SIZE - 1)) 0 k buf) as Hline.
    change (2 * 0) with 0 in Hline.
    rewrite Hline by nia. clear Hline.
    rewrite Z2Nat.id by lia.
    rewrite (IH fuel (k + BOARD_SIZE)); try lia; try nia.
    + simpl grid_rows. rewrite <- !app_assoc. reflexivity.
    + rewrite !length_app, length_replicate, cells_line_length by lia.
      cbn [length]. nia.
Qed.

Lemma draw_board_grid (table : list Z) (r : nat) :
  1 <= BOARD_SIZE ->
  DRAWBUFFER_SIZE = 2 + 4 * BOARD_SIZE * Z.of_nat r ->
  BOARD_SIZE * Z.of_nat r <= N_GRIDS ->
  draw_board table = [10; 10] ++ grid_rows BOARD_SIZE table 0 r ∧
  Z.of_nat (length (draw_board table)) = DRAWBUFFER_SIZE.
Proof.
  intros HB HD HN.
  assert (draw_board table = [10; 10] ++ grid_rows BOARD_SIZE table 0 r)
    as Heq.
  { unfold XoUser.draw_board. apply (draw_rows_grid table HB); simpl;
      try lia; nia. }
  split; [exact Heq |].
  rewrite Heq. clear Heq.
  assert (∀ k q, length (grid_rows BOARD_SIZE table k q) =
                 (Z.to_nat (4 * BOARD_SIZE) * q)%nat) as Hlen.
  { intros k q. revert k. induction q as [| q IHq]; intros k;
      cbn [grid_rows]; [cbn [length]; lia |].
    rewrite !length_app, length_replicate, cells_line_length, IHq by lia.
    cbn [length]. nia. }
  rewrite length_app, Hlen. cbn [length]. nia.
Qed.

(** X22. For a board of N_GRIDS cells, when DRAWBUFFER_SIZE is
    2 + 4 * BOARD_SIZE * r and N_GRIDS is at least r rows of BOARD_SIZE
    cells, draw_board writes exactly
    DRAWBUFFER_SIZE characters, so it stays within the buffer: two
    newlines, then for each of the r rows its BOARD_SIZE cells separated
    by bars, a newline, 2 * BOARD_SIZE - 1 dashes and a newline. *)
Theorem draw_board_is_grid (table : list Z) (r : nat) :
  Z.of_nat (length table) = N_GRIDS ->
  1 <= BOARD_SIZE ->
  DRAWBUFFER_SIZE = 2 + 4 * BOARD_SIZE * Z.of_nat r ->
  BOARD_SIZE * Z.of_nat r <= N_GRIDS ->
  draw_board table = [10; 10] ++ grid_rows BOARD_SIZE table 0 r ∧
  Z.of_nat (length (draw_board table)) = DRAWBUFFER_SIZE.
Proof. intros _. apply draw_board_grid. Qed.

Lemma cells_line_nth table :
  ∀ c k j,
    (j < c)%nat -> 0 <= k ->
    nth (2 * j) (cells_line table k c) 0 = nth (Z.to_nat k + j) table 0.
Proof.
  induction c as [| c IH]; intros k j Hj Hk; [lia |].
  destruct c as [| c].
  - assert (j = 0%nat) as -> by lia. simpl. rewrite Nat.add_0_r.
    reflexivity.
  - change (cells_line table k (S (S c)))
      with (nth (Z.to_nat k) table 0 :: 124 ::
            cells_line table (k + 1) (S c)).
    destruct j as [| j].
    + simpl. rewrite Nat.add_0_r. reflexivity.
    + replace (2 * S j)%nat with (S (S (2 * j))) by lia.
      cbn [nth]. rewrite IH by lia. f_equal. lia.
Qed.

Lemma grid_rows_nth table :
  1 <= BOARD_SIZE ->
  ∀ r k i j,
    (i < r)%nat -> (j < Z.to_nat BOARD_SIZE)%nat -> 0 <= k ->
    nth (4 * Z.to_nat BOARD_SIZE * i + 2 * j)
      (grid_rows BOARD_SIZE table k r) 0 =
    nth (Z.to_nat k + Z.to_nat BOARD_SIZE * i + j) table 0.
Proof.
  intros HB. induction r as [| r IH]; intros k i j Hi Hj Hk; [lia |].
  cbn [grid_rows].
  destruct i as [| i].
  - replace (4 * Z.to_nat BOARD_SIZE * 0 + 2 * j)%nat with (2 * j)%nat
      by lia.
    replace (Z.to_nat k + Z.to_nat BOARD_SIZE * 0 + j)%nat
      with (Z.to_nat k + j)%nat by lia.
    rewrite app_nth1 by (rewrite cells_line_length by lia; lia).
    rewrite cells_line_nth by lia. reflexivity.
  - set (row := cells_line table k (Z.to_nat BOARD_SIZE) ++ [10] ++
                replicate (Z.to_nat (2 * BOARD_SIZE - 1)) 45 ++ [10]).
    assert (length row = (4 * Z.to_nat BOARD_SIZE)%nat) as Hrow.
    { unfold row.
      rewrite !length_app, length_replicate, cells_line_length by lia.
      cbn [length]. lia. }
    replace (cells_line table k (Z.to_nat BOARD_SIZE) ++ [10] ++
             replicate (Z.to_nat (2 * BOARD_SIZE - 1)) 45 ++ [10] ++
             grid_rows BOARD_SIZE table (k + BOARD_SIZE) r)
      with (row ++ grid_rows BOARD_SIZE table (k + BOARD_SIZE) r)
      by (unfold row; rewrite <- !app_assoc; reflexivity).
    replace (4 * Z.to_nat BOARD_SIZE * S i + 2 * j)%nat
      with (length row + (4 * Z.to_nat BOARD_SIZE * i + 2 * j))%nat
      by (rewrite Hrow; lia).
    rewrite app_nth2_plus, IH by lia. f_equal. lia.
Qed.

(** X23. Under the same conditions the cell of row [i] and column [j]
    of the board is the character at offset
    2 + 4 * BOARD_SIZE * i + 2 * j of what draw_board writes. *)
Theorem draw_board_cell_position (table : list Z) (r i j : nat) :
  Z.of_nat (length table) = N_GRIDS ->
  1 <= BOARD_SIZE ->
  DRAWBUFFER_SIZE = 2 + 4 * BOARD_SIZE * Z.of_nat r ->
  BOARD_SIZE * Z.of_nat r <= N_GRIDS ->
  (i < r)%nat ->
  (j < Z.to_nat BOARD_SIZE)%nat ->
  nth (2 + 4 * Z.to_nat BOARD_SIZE * i + 2 * j) (draw_board table) 0 =
  nth (Z.to_nat BOARD_SIZE * i + j) table 0.
Proof.
  intros _ HB HD HN Hi Hj.
  destruct (draw_board_grid table r HB HD HN) as [-> _].
  replace (2 + 4 * Z.to_nat BOARD_SIZE * i + 2 * j)%nat
    with (S (S (4 * Z.to_nat BOARD_SIZE * i + 2 * j))) by lia.
  cbn [app nth]. rewrite (grid_rows_nth table HB) by lia. reflexivity.
Qed.

End grid.


(** ** The report *)

Section report_facts.

Variables GET_COL GET_ROW : Z -> Z.

Lemma print_moves_from_all :
  ∀ (rest before : list Z) (n : nat) (m : mem),
    (length rest ≤ n)%nat ->
    (print_moves_from GET_COL GET_ROW) n (before ++ rest)
      (Z.of_nat (length (before ++ rest))) (Z.of_nat (length before)) m =
    Ok (Mem (heap m) (alloc_ok m) (mallocs m)
          (trace m ++ (moves_joined GET_COL GET_ROW) rest)).
Proof.
  induction rest as [| x rest IH]; intros before n m Hn.
  - rewrite app_nil_r. simpl moves_joined. rewrite app_nil_r.
    destruct n; simpl; [destruct m; reflexivity |].
    replace (Z.of_nat (length before) <? Z.of_nat (length before))
      with false by (symmetry; apply Z.ltb_ge; lia).
    destruct m; reflexivity.
  - destruct n as [| n]; [simpl in Hn; lia |]. simpl print_moves_from.
    replace (Z.of_nat (length before) <?
             Z.of_nat (length (before ++ x :: rest)))
      with true
      by (symmetry; apply Z.ltb_lt; rewrite length_app; simpl; lia).
    rewrite Nat2Z.id, lookup_app_r, Nat.sub_diag by lia. simpl.
    replace (before ++ x :: rest) with ((before ++ [x]) ++ rest)
      by (rewrite <- app_assoc; reflexivity).
    replace (Z.of_nat (length before) + 1)
      with (Z.of_nat (length (before ++ [x])))
      by (rewrite length_app; simpl; lia).
    destruct rest as [| y rest].
    + replace (Z.of_nat (length before) <?
               Z.of_nat (length ((before ++ [x]) ++ [])) - 1)
        with false
        by (symmetry; apply Z.ltb_ge; rewrite !length_app; simpl; lia).
      rewrite IH by (simpl; lia). simpl. rewrite app_nil_r. reflexivity.
    + replace (Z.of_nat (length before) <?
               Z.of_nat (length ((before ++ [x]) ++ y :: rest)) - 1)
        with true
        by (symmetry; apply Z.ltb_lt; rewrite !length_app; simpl; lia).
      rewrite IH by (simpl in *; lia). simpl.
      rewrite <- !app_assoc. reflexivity.
Qed.

Lemma print_moves_all (mv : list Z) (m : mem) :
  (print_moves GET_COL GET_ROW) mv (Z.of_nat (length mv)) m =
  Ok (Mem (heap m) (alloc_ok m) (mallocs m)
        (trace m ++ [Printf "Moves: "] ++ (moves_joined GET_COL GET_ROW) mv ++ [Printf nl])).
Proof.
  unfold print_moves. rewrite Nat2Z.id.
  pose proof (print_moves_from_all mv [] (length mv)
                (emit (Printf "Moves: ") m) (Nat.le_refl _)) as H.
  cbn [app length] in H. change (Z.of_nat 0) with 0 in H.
  rewrite H, bind_Ok. unfold emit. simpl.
  rewrite <- !app_assoc. reflexivity.
Qed.

Lemma report_entries_dseg m before first (cells : list cell) last after :
  dseg (heap m) before first cells last after ->
  (report_entries GET_COL GET_ROW) m (cells.*1) =
  Ok (Mem (heap m) (alloc_ok m) (mallocs m)
        (trace m ++ concat ((game_lines GET_COL GET_ROW) <$> cells.*2))).
Proof.
  revert m before first.
  induction cells as [| [a [mv w]] rest IH]; intros m before first.
  - intros _. simpl. rewrite app_nil_r. destruct m; reflexivity.
  - intros [-> (e & He & _ & Hw & Hlen & Hv & Hrest)].
    simpl report_entries.
    rewrite (load_elem_elem _ _ _ He), bind_Ok.
    unfold load_ints. rewrite Hv, bind_Ok, Hlen, print_moves_all, bind_Ok.
    erewrite IH by (simpl; exact Hrest). simpl.
    unfold game_lines. simpl. rewrite Hw, <- !app_assoc.
    do 3 f_equal. cbn [app]. rewrite <- app_assoc. reflexivity.
Qed.

(** X24. On a well-formed queue the report after the loop ends normally,
    leaves the heap alone, and prints the games front to back, that is
    most recent first: for each one "Moves: ", its moves as letter and
    number joined by " -> " (no arrow after the last), a newline, and the
    winner between quotes. *)
Theorem main_report_prints_games
    (m : mem) (head : Z) (cells : list cell) :
  is_queue m head cells ->
  (main_report GET_COL GET_ROW) m head =
  Ok (Mem (heap m) (alloc_ok m) (mallocs m)
        (trace m ++ concat ((game_lines GET_COL GET_ROW) <$> cells.*2))).
Proof.
  intros Hq. unfold main_report.
  rewrite (list_for_each_entry_safe_queue _ _ _ Hq), bind_Ok.
  destruct Hq as (lh & _ & Hseg & _).
  eapply report_entries_dseg, Hseg.
Qed.

End report_facts.


(** ** The properties above at concrete inputs *)

Lemma one_game_queue_is_queue o :
  is_queue (one_game_queue o) 1 [(2, ([0; 4], 88))].
Proof.
  exists (ListHead 2 2). simpl.
  split; [reflexivity |]. split; [| split; [| reflexivity]].
  - split; [reflexivity |].
    exists (Element 3 2 88 (ListHead 1 1)). simpl.
    repeat split; reflexivity.
  - constructor; [inversion 1 | constructor].
Qed.

Lemma one_game_queue_values o :
  NoDup (cell_values (heap (one_game_queue o)) [(2, ([0; 4], 88))]).
Proof. unfold cell_values. simpl. constructor; [inversion 1 | constructor]. Qed.

Lemma two_moves_session : session_ok 16 ∅ two_moves_state [].
Proof.
  split; [apply empty_queue_over |]. simpl.
  split; [reflexivity |]. split; [reflexivity | lia].
Qed.

Lemma q_free_releases_queue_witness :
  ∃ m', q_free 1 (one_game_queue []) = Ok m' ∧
        (∀ p, heap m' !! p =
              if decide (p ∈ queue_blocks (heap (one_game_queue [])) 1
                               [(2, ([0; 4], 88))])
              then None else heap (one_game_queue []) !! p) ∧
        (size (heap (one_game_queue [])) =
         size (heap m') + 1 + 2 * length [(2, ([0; 4], 88))])%nat ∧
        alloc_ok m' = alloc_ok (one_game_queue []) ∧
        mallocs m' = mallocs (one_game_queue []) ∧
        trace m' = trace (one_game_queue []).
Proof.
  apply (q_free_releases_queue (one_game_queue []) 1 [(2, ([0; 4], 88))]).
  - apply one_game_queue_is_queue.
  - apply one_game_queue_values.
Defined.

Lemma q_insert_head_keeps_queue_over_witness :
  ∃ b m' cells',
    q_insert_head 1 [0; 4; 0; 0] 2 88 (empty_queue [true; true]) =
      Ok (b, m') ∧
    b = next_malloc_ok (empty_queue [true; true]) &&
        second_malloc_ok (empty_queue [true; true]) && (0 <=? 2) ∧
    queue_over ∅ m' 1 cells' ∧
    cells'.*2 = (if b then [(take (Z.to_nat 2) [0; 4; 0; 0], 88)] else []) ++
                [] ∧
    (if b then ∃ n, cells' = [(n, (take (Z.to_nat 2) [0; 4; 0; 0], 88))]
     else cells' = [] ∧ heap m' = heap (empty_queue [true; true])) ∧
    trace m' = trace (empty_queue [true; true]) ++
               (if b then [] else [alloc_msg]).
Proof.
  apply (q_insert_head_keeps_queue_over ∅ (empty_queue [true; true]) 1 []
           [0; 4; 0; 0] 2 88).
  - apply empty_queue_over.
  - simpl. lia.
Defined.

Lemma q_new_builds_empty_queue_witness :
  (next_malloc_ok (Mem ∅ [true] 0 []) = true ->
   ∃ p m', q_new (Mem ∅ [true] 0 []) = Ok (p, m') ∧
           p ≠ NULL ∧
           heap (Mem ∅ [true] 0 []) !! p = None ∧
           queue_over (heap (Mem ∅ [true] 0 [])) m' p [] ∧
           q_records m' p = Ok []) ∧
  (next_malloc_ok (Mem ∅ [true] 0 []) = false ->
   ∃ m', q_new (Mem ∅ [true] 0 []) = Ok (NULL, m') ∧
         heap m' = heap (Mem ∅ [true] 0 [])).
Proof.
  apply (q_new_builds_empty_queue (Mem ∅ [true] 0 [])). reflexivity.
Defined.


Lemma q_insert_head_reads_past_short_array_witness :
  q_insert_head 1 [0; 4] 3 88 (empty_queue [true; true]) =
  Fault SourceOutOfBounds.
Proof.
  apply (q_insert_head_reads_past_short_array (empty_queue [true; true]) 1
           [] [0; 4] 3 88).
  - apply empty_queue_is_queue.
  - reflexivity.
  - reflexivity.
  - simpl. lia.
Defined.

Lemma list_del_unlinks_front_witness :
  ∃ m', list_del 2 (one_game_queue []) = Ok m' ∧
        is_queue m' 1 [] ∧
        q_records m' 1 = Ok [] ∧
        heap m' !! 2 = heap (one_game_queue []) !! 2 ∧
        (∀ q, is_Some (heap m' !! q) ↔
              is_Some (heap (one_game_queue []) !! q)).
Proof.
  apply (list_del_unlinks_front (one_game_queue []) 1 2 ([0; 4], 88) []).
  apply one_game_queue_is_queue.
Defined.

Lemma list_add_then_list_del_witness :
  ∃ m1 m2, list_add 2 1 unlinked_node_queue = Ok m1 ∧
           q_records m1 1 = Ok [([0; 4], 88)] ∧
           list_del 2 m1 = Ok m2 ∧
           is_queue m2 1 [] ∧
           q_records m2 1 = Ok [].
Proof.
  apply (list_add_then_list_del unlinked_node_queue 1 2 []
           (Element 3 2 88 (ListHead NULL NULL)) [0; 4]).
  - exists (ListHead 1 1). simpl. repeat split; try reflexivity.
    constructor.
  - reflexivity.
  - inversion 1.
  - reflexivity.
  - reflexivity.
Defined.

Lemma keyboard_handler_frame_witness :
  let st' := XoUser.listen_keyboard_handler letter_key two_moves_state in
  XoUser.table st' = XoUser.table two_moves_state ∧
  XoUser.move_record st' = XoUser.move_record two_moves_state ∧
  XoUser.move_count st' = XoUser.move_count two_moves_state ∧
  XoUser.head st' = XoUser.head two_moves_state ∧
  XoUser.pkg_obj st' = XoUser.pkg_obj two_moves_state ∧
  heap (XoUser.memory st') = heap (XoUser.memory two_moves_state) ∧
  alloc_ok (XoUser.memory st') = alloc_ok (XoUser.memory two_moves_state) ∧
  mallocs (XoUser.memory st') = mallocs (XoUser.memory two_moves_state) ∧
  XoUser.end_attr st' =
    (XoUser.end_attr two_moves_state ||
     is_key 17 (XoUser.input letter_key)) ∧
  XoUser.read_attr st' =
    (if is_key 16 (XoUser.input letter_key)
     then negb (XoUser.read_attr two_moves_state)
     else if is_key 17 (XoUser.input letter_key) then false
          else XoUser.read_attr two_moves_state) ∧
  trace (XoUser.memory st') =
    trace (XoUser.memory two_moves_state) ++
      [SysOpen XoUser.XO_DEVICE_ATTR_FILE 3;
       SysRead XoUser.STDIN_FILENO 1; SysClose 3].
Proof.
  destruct (keyboard_handler_frame letter_key two_moves_state)
    as (H1 & H2 & H3 & H4 & H5 & H6 & H7 & H8 & H9 & H10 & H11).
  repeat (split; [assumption |]).
  apply H11; reflexivity.
Defined.

Lemma display_toggle_key_witness :
  let st' := XoUser.listen_keyboard_handler ctrl_p_key two_moves_state in
  let byte0 := if nth 0 (XoUser.buf ctrl_p_key) 0 =? 48 then 49 else 48 in
  XoUser.read_attr st' = negb (XoUser.read_attr two_moves_state) ∧
  XoUser.end_attr st' = XoUser.end_attr two_moves_state ∧
  trace (XoUser.memory st') =
    trace (XoUser.memory two_moves_state) ++
      [SysOpen XoUser.XO_DEVICE_ATTR_FILE (XoUser.attr_fd ctrl_p_key);
       SysRead XoUser.STDIN_FILENO 1;
       SysRead (XoUser.attr_fd ctrl_p_key) 6;
       SysWrite (XoUser.attr_fd ctrl_p_key)
         (<[0%nat := byte0]> (take 6 (XoUser.buf ctrl_p_key)))] ++
      (if XoUser.read_attr two_moves_state
       then [Printf ("Stopping to display the chess board..." ++ nl)]
       else []) ++
      [SysClose (XoUser.attr_fd ctrl_p_key)] ∧
  length (<[0%nat := byte0]> (take 6 (XoUser.buf ctrl_p_key))) = 6%nat ∧
  (∀ i, (1 <= i < 6)%nat ->
        <[0%nat := byte0]> (take 6 (XoUser.buf ctrl_p_key)) !! i =
        XoUser.buf ctrl_p_key !! i).
Proof.
  apply (display_toggle_key ctrl_p_key two_moves_state).
  - reflexivity.
  - reflexivity.
Defined.


Lemma device_branch_keeps_flags_and_blanks_board_witness :
  ∃ st',
    XoUser.device_ready 4 16 66 (Some (Pkg.Package 216 (-1)))
      two_moves_state = Ok st' ∧
    XoUser.end_attr st' = XoUser.end_attr two_moves_state ∧
    XoUser.read_attr st' = XoUser.read_attr two_moves_state ∧
    XoUser.head st' = XoUser.head two_moves_state ∧
    XoUser.pkg_obj st' =
      received (Some (Pkg.Package 216 (-1))) two_moves_state ∧
    (Pkg.PKG_GET_END
       (Pkg.val (received (Some (Pkg.Package 216 (-1))) two_moves_state)) =
     true ->
     XoUser.table st' = replicate (Z.to_nat 16) 32).
Proof.
  destruct (XoUser.device_ready 4 16 66 (Some (Pkg.Package 216 (-1)))
              two_moves_state) as [st' | |] eqn:E;
    try (vm_compute in E; discriminate).
  exists st'. split; [reflexivity |].
  apply (device_branch_keeps_flags_and_blanks_board 4 16 66
           (Some (Pkg.Package 216 (-1))) two_moves_state st').
  exact E.
Defined.

Lemma loop_exits_only_by_ctrl_q_witness :
  ∃ st',
    XoUser.main_loop 4 16 66
      [device_tick (Pkg.Package 88 8); key_tick ctrl_q_key;
       device_tick (Pkg.Package 79 9)] two_moves_state =
      Ok (XoUser.LoopExited, st') ∧
    (XoUser.end_attr two_moves_state = true ∨
     Exists (fun t => XoUser.stdin_set (XoUser.sel t) = true ∧
                      XoUser.input (XoUser.kb t) = Some 17)
       [device_tick (Pkg.Package 88 8); key_tick ctrl_q_key;
        device_tick (Pkg.Package 79 9)]).
Proof.
  destruct (XoUser.main_loop 4 16 66
              [device_tick (Pkg.Package 88 8); key_tick ctrl_q_key;
               device_tick (Pkg.Package 79 9)] two_moves_state)
    as [[[|] st'] | |] eqn:E; try (vm_compute in E; discriminate).
  exists st'. split; [reflexivity |].
  apply (loop_exits_only_by_ctrl_q 4 16 66
           [device_tick (Pkg.Package 88 8); key_tick ctrl_q_key;
            device_tick (Pkg.Package 79 9)] two_moves_state st').
  exact E.
Defined.

Lemma loop_body_keeps_session_witness :
  ∃ st',
    XoUser.loop_body 4 16 66 (device_tick (Pkg.Package 216 (-1)))
      two_moves_state = Ok st' ∧
    ∃ cells', session_ok 16 ∅ st' cells' ∧
              (cells' = [] ∨ ∃ n r, cells' = [(n, r)]).
Proof.
  destruct (XoUser.loop_body 4 16 66 (device_tick (Pkg.Package 216 (-1)))
              two_moves_state) as [st' | |] eqn:E;
    try (vm_compute in E; discriminate).
  exists st'. split; [reflexivity |].
  apply (loop_body_keeps_session 4 16 66 ∅
           (device_tick (Pkg.Package 216 (-1))) two_moves_state st' []).
  - apply two_moves_session.
  - exact E.
Defined.


Lemma session_releases_all_memory_witness :
  ∃ st0 st,
    XoUser.main_init 16 (Mem ∅ [true; true; true] 0 []) = Ok st0 ∧
    XoUser.main_loop 4 16 66
      [device_tick (Pkg.Package 88 0); device_tick (Pkg.Package 79 4);
       device_tick (Pkg.Package (Pkg.PKG_SET_END 88) (-1));
       key_tick ctrl_q_key] st0 = Ok (XoUser.LoopExited, st) ∧
    ∃ m', q_free (XoUser.head st) (XoUser.memory st) = Ok m' ∧
          heap m' = heap (Mem ∅ [true; true; true] 0 []).
Proof.
  destruct (XoUser.main_init 16 (Mem ∅ [true; true; true] 0 []))
    as [st0 | |] eqn:E0; try (vm_compute in E0; discriminate).
  destruct (XoUser.main_loop 4 16 66
              [device_tick (Pkg.Package 88 0); device_tick (Pkg.Package 79 4);
               device_tick (Pkg.Package (Pkg.PKG_SET_END 88) (-1));
               key_tick ctrl_q_key] st0) as [[[|] st] | |] eqn:E1;
    try (vm_compute in E0; inversion E0; subst st0;
         vm_compute in E1; discriminate).
  exists st0, st. split; [reflexivity |]. split; [exact E1 |].
  apply (session_releases_all_memory 4 16 66
           (Mem ∅ [true; true; true] 0 [])
           [device_tick (Pkg.Package 88 0); device_tick (Pkg.Package 79 4);
            device_tick (Pkg.Package (Pkg.PKG_SET_END 88) (-1));
            key_tick ctrl_q_key] st0 st XoUser.LoopExited).
  - reflexivity.
  - lia.
  - exact E0.
  - exact E1.
Defined.

Lemma main_init_establishes_session_witness :
  (next_malloc_ok (Mem ∅ [true] 0 []) = true ->
   ∃ st, XoUser.main_init 16 (Mem ∅ [true] 0 []) = Ok st ∧
         session_ok 16 (heap (Mem ∅ [true] 0 [])) st [] ∧
         XoUser.read_attr st = true ∧ XoUser.end_attr st = false ∧
         XoUser.move_count st = 0 ∧
         XoUser.table st = replicate (Z.to_nat 16) 0 ∧
         trace (XoUser.memory st) = trace (Mem ∅ [true] 0 [])) ∧
  (next_malloc_ok (Mem ∅ [true] 0 []) = false ->
   XoUser.main_init 16 (Mem ∅ [true] 0 []) = Exited 1).
Proof.
  apply (main_init_establishes_session 16 (Mem ∅ [true] 0 [])).
  - reflexivity.
  - lia.
Defined.


Lemma record_to_queue_outcome_witness :
  ∃ st',
    XoUser.record_to_queue 88 two_moves_state = Ok st' ∧
    XoUser.table st' = XoUser.table two_moves_state ∧
    XoUser.move_record st' = XoUser.move_record two_moves_state ∧
    XoUser.head st' = XoUser.head two_moves_state ∧
    XoUser.read_attr st' = XoUser.read_attr two_moves_state ∧
    XoUser.end_attr st' = XoUser.end_attr two_moves_state ∧
    XoUser.pkg_obj st' = XoUser.pkg_obj two_moves_state ∧
    (∃ n, queue_over ∅ (XoUser.memory st') 1 [(n, ([0; 4], 88))]) ∧
    XoUser.move_count st' = 0 ∧
    trace (XoUser.memory st') = trace (XoUser.memory two_moves_state).
Proof.
  apply (record_to_queue_outcome ∅ 88 two_moves_state []).
  - apply empty_queue_over.
  - simpl. lia.
Defined.

Lemma draw_board_characters_witness :
  Forall (fun c => c = 10 ∨ c = 124 ∨ c = 45 ∨ c ∈ sample_board)
    (XoUser.draw_board 4 16 66 sample_board).
Proof.
  apply (draw_board_characters 4 16 66 sample_board). simpl. lia.
Defined.

Lemma draw_board_is_grid_witness :
  XoUser.draw_board 4 16 66 sample_board =
    [10; 10] ++ grid_rows 4 sample_board 0 4 ∧
  Z.of_nat (length (XoUser.draw_board 4 16 66 sample_board)) = 66.
Proof.
  apply (draw_board_is_grid 4 16 66 sample_board 4); simpl; lia.
Defined.

Lemma draw_board_cell_position_witness :
  nth (2 + 4 * Z.to_nat 4 * 1 + 2 * 0)
    (XoUser.draw_board 4 16 66 sample_board) 0 =
  nth (Z.to_nat 4 * 1 + 0) sample_board 0.
Proof.
  apply (draw_board_cell_position 4 16 66 sample_board 4 1 0); simpl; lia.
Defined.

Lemma main_report_prints_games_witness :
  main_report (fun x => x mod 4) (fun x => x / 4) (one_game_queue []) 1 =
  Ok (Mem (heap (one_game_queue [])) [] 3
        [Printf "Moves: "; Printf "A1"; Printf " -> "; Printf "A2";
         Printf nl;
         Printf (String (ascii_of_nat 34)
                   (String (char_of 88)
                      (String (ascii_of_nat 34) (" Win!" ++ nl))))]).
Proof.
  apply (main_report_prints_games (fun x => x mod 4) (fun x => x / 4)
           (one_game_queue []) 1 [(2, ([0; 4], 88))]).
  apply one_game_queue_is_queue.
Defined.
